(** * Contacts backend: authentication flow and contact store

    A shallow embedding of the repository's user store
    ([src/repository/users.py]), contact store
    ([src/repository/contacts.py]) and the two route modules
    ([src/routes/auth.py], [src/routes/contacts.py]), together with the
    part of PostgreSQL's date arithmetic that the upcoming-birthday filter
    is evaluated with. *)

From Stdlib Require Import ZArith List String Bool Lia.
Import ListNotations.

Local Open Scope Z_scope.

(** ** Calendar: the SQL functions behind [has_birthday_next_days]

    [func.age], [func.date_part] and the [date - interval] operator are
    evaluated by PostgreSQL.  Birth dates are [date] values, the shifted
    value is a timestamp at midnight and [age] with one argument measures
    from [current_date] at midnight, so every time-of-day field is zero and
    a civil date carries all the information. *)
Module Calendar.

Record date : Type := mkdate { year : Z; month : Z; day : Z }.

Definition date_eqb (a b : date) : bool :=
  (year a =? year b) && (month a =? month b) && (day a =? day b).

(** Timestamp order, which for civil dates is the lexicographic one. *)
Definition date_ltb (a b : date) : bool :=
  (year a <? year b)
  || ((year a =? year b)
      && ((month a <? month b)
          || ((month a =? month b) && (day a <? day b)))).

Definition date_leb (a b : date) : bool := negb (date_ltb b a).

(** [isleap] of the server's date code. *)
Definition isleap (y : Z) : bool :=
  (y mod 4 =? 0) && (negb (y mod 100 =? 0) || (y mod 400 =? 0)).

(** [day_tab[leap][idx]], indexed by month minus one; the thirteenth entry
    of each row is 0 as in the server's table. *)
Definition day_tab (leap : bool) (idx : Z) : Z :=
  nth (Z.to_nat idx)
      (if leap
       then [31; 29; 31; 30; 31; 30; 31; 31; 30; 31; 30; 31; 0]
       else [31; 28; 31; 30; 31; 30; 31; 31; 30; 31; 30; 31; 0])
      0.

Definition days_in_month (y m : Z) : Z := day_tab (isleap y) (m - 1).

Definition valid_date (d : date) : bool :=
  (1 <=? month d) && (month d <=? 12)
  && (1 <=? day d) && (day d <=? days_in_month (year d) (month d)).

Definition prev_day (d : date) : date :=
  if 1 <? day d then mkdate (year d) (month d) (day d - 1)
  else if 1 <? month d
       then mkdate (year d) (month d - 1) (days_in_month (year d) (month d - 1))
       else mkdate (year d - 1) 12 31.

Definition next_day (d : date) : date :=
  if day d <? days_in_month (year d) (month d)
  then mkdate (year d) (month d) (day d + 1)
  else if month d <? 12
       then mkdate (year d) (month d + 1) 1
       else mkdate (year d + 1) 1 1.

Fixpoint iter_days (n : nat) (step : date -> date) (d : date) : date :=
  match n with
  | O => d
  | S k => iter_days k step (step d)
  end.

(** [d - interval 'n days'] and [d + interval 'n days']: the calendar date
    [n] days earlier (later). *)
Definition date_minus_days (d : date) (n : Z) : date :=
  if 0 <=? n then iter_days (Z.to_nat n) prev_day d
  else iter_days (Z.to_nat (- n)) next_day d.

Definition date_plus_days (d : date) (n : Z) : date :=
  date_minus_days d (- n).

(** An interval restricted to the fields a difference of two midnights can
    have: [imonths] is years * 12 + months, [idays] the day field. *)
Record interval : Type := mkinterval { imonths : Z; idays : Z }.

(** [while (tm_mday < 0) { tm_mday += dim; tm_mon--; }].  Each round adds
    [dim]; with [dim >= 1] at most [- mday] rounds run, which is the fuel
    [timestamp_age] passes. *)
Fixpoint borrow_days (fuel : nat) (dim mday mon : Z) : Z * Z :=
  match fuel with
  | O => (mday, mon)
  | S k =>
      if mday <? 0 then borrow_days k dim (mday + dim) (mon - 1)
      else (mday, mon)
  end.

(** [while (tm_mon < 0) { tm_mon += 12; tm_year--; }]. *)
Fixpoint borrow_months (fuel : nat) (mon yr : Z) : Z * Z :=
  match fuel with
  | O => (mon, yr)
  | S k =>
      if mon <? 0 then borrow_months k (mon + 12) (yr - 1)
      else (mon, yr)
  end.

(** [timestamp_age(dt1, dt2)]: the symbolic field-wise difference, sign
    flipped when [dt1 < dt2], negative fields borrowed from the next higher
    field, sign recovered, then packed as an interval. *)
Definition timestamp_age (dt1 dt2 : date) : interval :=
  let flip := date_ltb dt1 dt2 in
  let sgn (z : Z) := if flip then - z else z in
  let mday := sgn (day dt1 - day dt2) in
  let mon := sgn (month dt1 - month dt2) in
  let yr := sgn (year dt1 - year dt2) in
  let dim :=
    if flip then day_tab (isleap (year dt1)) (month dt1 - 1)
    else day_tab (isleap (year dt2)) (month dt2 - 1) in
  let '(mday, mon) := borrow_days (Z.to_nat (- mday)) dim mday mon in
  let '(mon, yr) := borrow_months (Z.to_nat (- mon)) mon yr in
  mkinterval (sgn yr * 12 + sgn mon) (sgn mday).

(** [age(ts)]: [timestamp_age(current_date, ts)]. *)
Definition age (today ts : date) : interval := timestamp_age today ts.

(** [date_part('year', interval)]: months / 12, truncated toward zero. *)
Definition date_part_year (i : interval) : Z := Z.quot (imonths i) 12.

End Calendar.

(** ** Outcomes and the unit of work

    A handler either returns, raises [HTTPException(status_code, detail)],
    or dies with an uncaught Python exception.  The database session is
    threaded explicitly: a computation takes the state before and gives the
    state after, also when it raises (what was committed stays committed). *)
Module Outcome.

Inductive py_exception : Type :=
| AttributeError        (* attribute access on None *)
| MultipleResultsFound  (* scalar_one_or_none() on more than one row *)
| DBAPIError.           (* the statement was rejected by the server *)

Inductive outcome (A : Type) : Type :=
| Return (a : A)
| HTTPException (status_code : Z) (detail : string)
| Uncaught (e : py_exception).

Arguments Return {A} a.
Arguments HTTPException {A} status_code detail.
Arguments Uncaught {A} e.

Definition M (S A : Type) : Type := S -> outcome A * S.

Definition ret {S A : Type} (a : A) : M S A := fun s => (Return a, s).

Definition bind {S A B : Type} (m : M S A) (k : A -> M S B) : M S B :=
  fun s =>
    match m s with
    | (Return a, s') => k a s'
    | (HTTPException c d, s') => (HTTPException c d, s')
    | (Uncaught e, s') => (Uncaught e, s')
    end.

Definition raise_http {S A : Type} (status_code : Z) (detail : string)
  : M S A := fun s => (HTTPException status_code detail, s).

Definition raise {S A : Type} (e : py_exception) : M S A :=
  fun s => (Uncaught e, s).

Definition get {S : Type} : M S S := fun s => (Return s, s).

Definition put {S : Type} (s : S) : M S unit := fun _ => (Return tt, s).

Definition lift {S A : Type} (o : outcome A) : M S A := fun s => (o, s).

(** The status line FastAPI answers with once a handler has run, for a
    route that declares no response model: the route's declared success
    status on return, the exception's own status for an [HTTPException],
    500 for anything uncaught. *)
Definition http_status {A : Type} (declared : Z) (o : outcome A) : Z :=
  match o with
  | Return _ => declared
  | HTTPException c _ => c
  | Uncaught _ => 500
  end.

End Outcome.

Export Outcome.

Declare Scope monad_scope.
Delimit Scope monad_scope with monad.
Notation "x <- m ;; k" := (bind m (fun x => k))
  (at level 61, m at next level, right associativity) : monad_scope.
Notation "m ;;; k" := (bind m (fun _ => k))
  (at level 61, right associativity) : monad_scope.

(** ** Entities and request schemas

    [src/entity/models.py] and [src/schemas/] are not among the sources at
    hand.  The columns taken here are the ones the repository code and the
    tests name: [filter_by(last_name=...)], [Contact.birth_date],
    [Contact(id=1, name=..., last_name=..., phone_number=..., ...)],
    [User(username=..., email=..., hash=..., avatar=...)],
    [user.refresh_token], [user.confirmed]. *)

Module User.
(** Modelled from the spec: the [User] entity of [src/entity/models.py]
    (identity, username, email, password hash, nullable avatar URL,
    nullable current refresh token, confirmed flag defaulting to false). *)
Record t : Type := mk {
  id : Z;
  username : string;
  email : string;
  hash : string;
  avatar : option string;
  refresh_token : option string;
  confirmed : bool
}.

Definition set_refresh_token (u : t) (tok : option string) : t :=
  mk (id u) (username u) (email u) (hash u) (avatar u) tok (confirmed u).

Definition set_avatar (u : t) (url : option string) : t :=
  mk (id u) (username u) (email u) (hash u) url (refresh_token u)
     (confirmed u).

Definition set_confirmed (u : t) (b : bool) : t :=
  mk (id u) (username u) (email u) (hash u) (avatar u) (refresh_token u) b.
End User.

Module Contact.
(** Modelled from the spec: the [Contact] entity of
    [src/entity/models.py] (identity, name, last name, email, phone number,
    birth date, free-form notes [rest], owning user id). *)
Record t : Type := mk {
  id : Z;
  name : string;
  last_name : string;
  email : string;
  phone_number : string;
  birth_date : Calendar.date;
  rest : string;
  user_id : Z
}.
End Contact.

(** Values a Python attribute of a contact may hold. *)
Inductive value : Type :=
| VStr (s : string)
| VDate (d : Calendar.date)
| VInt (z : Z).

(** A [Contact] object attached to the session: the mapped columns, and
    whatever other attributes were assigned on the Python object (they live
    in its [__dict__] and are never written to the table). *)
Record ContactInstance : Type := mkinstance {
  row : Contact.t;
  attrs : list (string * value)
}.

(** [obj.<attr> = v].  An attribute that names a mapped column changes the
    column; any other name becomes a plain attribute of the object. *)
Definition setattr (obj : ContactInstance) (attr : string) (v : value)
  : ContactInstance :=
  let r := row obj in
  let keep := mkinstance r ((attr, v) :: attrs obj) in
  let col (r' : Contact.t) := mkinstance r' (attrs obj) in
  let same := mkinstance r (attrs obj) in
  if String.eqb attr "id" then
    match v with
    | VInt z => col (Contact.mk z (Contact.name r) (Contact.last_name r)
                      (Contact.email r) (Contact.phone_number r)
                      (Contact.birth_date r) (Contact.rest r)
                      (Contact.user_id r))
    | _ => same
    end
  else if String.eqb attr "name" then
    match v with
    | VStr s => col (Contact.mk (Contact.id r) s (Contact.last_name r)
                      (Contact.email r) (Contact.phone_number r)
                      (Contact.birth_date r) (Contact.rest r)
                      (Contact.user_id r))
    | _ => same
    end
  else if String.eqb attr "last_name" then
    match v with
    | VStr s => col (Contact.mk (Contact.id r) (Contact.name r) s
                      (Contact.email r) (Contact.phone_number r)
                      (Contact.birth_date r) (Contact.rest r)
                      (Contact.user_id r))
    | _ => same
    end
  else if String.eqb attr "email" then
    match v with
    | VStr s => col (Contact.mk (Contact.id r) (Contact.name r)
                      (Contact.last_name r) s (Contact.phone_number r)
                      (Contact.birth_date r) (Contact.rest r)
                      (Contact.user_id r))
    | _ => same
    end
  else if String.eqb attr "phone_number" then
    match v with
    | VStr s => col (Contact.mk (Contact.id r) (Contact.name r)
                      (Contact.last_name r) (Contact.email r) s
                      (Contact.birth_date r) (Contact.rest r)
                      (Contact.user_id r))
    | _ => same
    end
  else if String.eqb attr "birth_date" then
    match v with
    | VDate d => col (Contact.mk (Contact.id r) (Contact.name r)
                       (Contact.last_name r) (Contact.email r)
                       (Contact.phone_number r) d (Contact.rest r)
                       (Contact.user_id r))
    | _ => same
    end
  else if String.eqb attr "rest" then
    match v with
    | VStr s => col (Contact.mk (Contact.id r) (Contact.name r)
                      (Contact.last_name r) (Contact.email r)
                      (Contact.phone_number r) (Contact.birth_date r) s
                      (Contact.user_id r))
    | _ => same
    end
  else if String.eqb attr "user_id" then
    match v with
    | VInt z => col (Contact.mk (Contact.id r) (Contact.name r)
                      (Contact.last_name r) (Contact.email r)
                      (Contact.phone_number r) (Contact.birth_date r)
                      (Contact.rest r) z)
    | _ => same
    end
  else keep.

(** Modelled from the spec: [UserValidationSchema] of
    [src/schemas/users.py], with the fields the signup route and the tests
    use. *)
Record UserValidationSchema : Type := mkUserBody {
  body_username : string;
  body_email : string;
  body_hash : string
}.

(** Modelled from the spec: [ContactValidationSchema] of
    [src/schemas/contacts.py], the six contact fields, all supplied, so
    [model_dump(exclude_unset=True)] keeps each of them. *)
Record ContactValidationSchema : Type := mkContactBody {
  body_name : string;
  body_last_name : string;
  body_contact_email : string;
  body_phone_number : string;
  body_birth_date : Calendar.date;
  body_rest : string
}.

(** Modelled from the spec: [ContactValidationSchemaResponse] of
    [src/schemas/contacts.py], the same fields and an id. *)
Record ContactValidationSchemaResponse : Type := mkContactResponse {
  resp_id : Z;
  resp_fields : ContactValidationSchema
}.

(** [OAuth2PasswordRequestForm]. *)
Record OAuth2PasswordRequestForm : Type := mkLoginForm {
  form_username : string;
  form_password : string
}.

(** [TokenSchema]. *)
Record TokenSchema : Type := mkTokens {
  access_token : string;
  refresh_token : string;
  token_type : string
}.

(** A task handed to [BackgroundTasks.add_task(send_email, ...)]. *)
Record EmailTask : Type := mkEmailTask {
  task_email : string;
  task_username : string;
  task_base_url : string
}.

(** The state a request runs against: both tables in row order, the two
    id sequences, and the background tasks scheduled so far. *)
Record state : Type := mkstate {
  users : list User.t;
  contacts : list Contact.t;
  next_user_id : Z;
  next_contact_id : Z;
  tasks : list EmailTask
}.

Definition with_users (s : state) (us : list User.t) : state :=
  mkstate us (contacts s) (next_user_id s) (next_contact_id s) (tasks s).

Definition with_contacts (s : state) (cs : list Contact.t) : state :=
  mkstate (users s) cs (next_user_id s) (next_contact_id s) (tasks s).

(** [Result.scalar_one_or_none()]. *)
Definition scalar_one_or_none {A : Type} (rows : list A)
  : outcome (option A) :=
  match rows with
  | [] => Return None
  | [x] => Return (Some x)
  | _ :: _ :: _ => Uncaught MultipleResultsFound
  end.

(** ** User store ([src/repository/users.py]) *)
Module RepoUsers.

Local Open Scope monad_scope.

(** [select(User).filter_by(email=email)]. *)
Definition select_by_email (email : string) (s : state) : list User.t :=
  filter (fun u => String.eqb (User.email u) email) (users s).

Definition get_user_by_email (email : string) : M state (option User.t) :=
  s <- get ;;
  lift (scalar_one_or_none (select_by_email email s)).

(** What [commit] writes for an attribute changed on a loaded [User]: the
    row with the object's primary key. *)
Definition flush_user (uid : Z) (f : User.t -> User.t) (s : state) : state :=
  with_users s (map (fun u => if User.id u =? uid then f u else u) (users s)).

(** [get_image email] is what [Gravatar(email).get_image()] gives, [None]
    when it raises (the exception is printed and dropped). *)
Definition create_user (get_image : string -> option string)
  (body : UserValidationSchema) : M state User.t :=
  let avatar := get_image (body_email body) in
  s <- get ;;
  let new_user :=
    User.mk (next_user_id s) (body_username body) (body_email body)
            (body_hash body) avatar None false in
  put (mkstate (users s ++ [new_user]) (contacts s) (next_user_id s + 1)
               (next_contact_id s) (tasks s)) ;;;
  ret new_user.

Definition update_token (user : User.t) (token : option string)
  : M state unit :=
  s <- get ;;
  put (flush_user (User.id user) (fun u => User.set_refresh_token u token) s).

Definition update_avatar_url (email : string) (url : option string)
  : M state User.t :=
  user <- get_user_by_email email ;;
  match user with
  | None => raise AttributeError
  | Some user =>
      s <- get ;;
      put (flush_user (User.id user) (fun u => User.set_avatar u url) s) ;;;
      ret (User.set_avatar user url)
  end.

Definition confirmed_email (email : string) : M state unit :=
  user <- get_user_by_email email ;;
  match user with
  | None => raise AttributeError
  | Some user =>
      s <- get ;;
      put (flush_user (User.id user) (fun u => User.set_confirmed u true) s)
  end.

End RepoUsers.

(** ** Contact store ([src/repository/contacts.py]) *)
Module RepoContacts.

Import Calendar.
Local Open Scope monad_scope.

(** [today] is the server's [current_date] when the statement runs. *)
Definition age_years_at (today sa_col : date) (next_days : Z) : Z :=
  let stmt :=
    age today
        (if negb (next_days =? 0) then date_minus_days sa_col next_days
         else sa_col) in
  date_part_year stmt.

Definition has_birthday_next_days (today sa_col : date) (next_days : Z)
  : bool :=
  age_years_at today sa_col next_days >? age_years_at today sa_col 0.

(** Python truth of an optional string argument: neither [None] nor
    empty. *)
Definition truthy (x : option string) : bool :=
  match x with
  | None => false
  | Some v => negb (String.eqb v "")
  end.

(** [if x: stmt = stmt.filter_by(col=x)]. *)
Definition filter_by_opt (x : option string) (col : string) : bool :=
  if truthy x
  then match x with Some v => String.eqb col v | None => true end
  else true.

(** The WHERE clause [read_all_contacts] builds. *)
Definition where_clause (today : date) (name last_name email : option string)
  (find_BD : bool) (user_id : Z) (c : Contact.t) : bool :=
  (Contact.user_id c =? user_id)
  && filter_by_opt name (Contact.name c)
  && filter_by_opt last_name (Contact.last_name c)
  && filter_by_opt email (Contact.email c)
  && (if find_BD
      then has_birthday_next_days today (Contact.birth_date c) 7
      else true).

(** The server rejects a negative LIMIT or OFFSET. *)
Definition read_all_contacts (today : date) (limit offset : Z)
  (name last_name email : option string) (find_BD : bool) (user_id : Z)
  : M state (list Contact.t) :=
  s <- get ;;
  if (limit <? 0) || (offset <? 0) then raise DBAPIError
  else
    ret (firstn (Z.to_nat limit)
           (skipn (Z.to_nat offset)
              (filter (where_clause today name last_name email find_BD
                         user_id)
                 (contacts s)))).

(** [select(Contact).filter_by(id=contact_id).filter_by(user_id=user_id)]. *)
Definition select_contact (contact_id user_id : Z) (s : state)
  : list Contact.t :=
  filter (fun c => (Contact.id c =? contact_id)
                   && (Contact.user_id c =? user_id))
         (contacts s).

Definition read_contact (contact_id user_id : Z)
  : M state (option Contact.t) :=
  s <- get ;;
  lift (scalar_one_or_none (select_contact contact_id user_id s)).

Definition add_contact (body : ContactValidationSchema) (user_id : Z)
  : M state Contact.t :=
  s <- get ;;
  let contact :=
    Contact.mk (next_contact_id s) (body_name body) (body_last_name body)
               (body_contact_email body) (body_phone_number body)
               (body_birth_date body) (body_rest body) user_id in
  put (mkstate (users s) (contacts s ++ [contact]) (next_user_id s)
               (next_contact_id s + 1) (tasks s)) ;;;
  ret contact.

(** [commit] for a loaded contact: the mapped columns of the object are
    written to the row with its primary key. *)
Definition flush_contact (obj : ContactInstance) (s : state) : state :=
  with_contacts s
    (map (fun c => if Contact.id c =? Contact.id (row obj) then row obj
                   else c)
         (contacts s)).

(** [refresh(obj)]: the mapped columns are read back from the row with the
    object's primary key; other attributes of the object stay. *)
Definition refresh_contact (obj : ContactInstance) (s : state)
  : ContactInstance :=
  match filter (fun c => Contact.id c =? Contact.id (row obj)) (contacts s)
  with
  | c :: _ => mkinstance c (attrs obj)
  | [] => obj
  end.

Definition update_contact (body : ContactValidationSchemaResponse)
  (contact_id user_id : Z) : M state (option ContactInstance) :=
  result <- read_contact contact_id user_id ;;
  match result with
  | Some c =>
      let b := resp_fields body in
      let contact := mkinstance c [] in
      let contact := setattr contact "name" (VStr (body_name b)) in
      let contact := setattr contact "lastName" (VStr (body_last_name b)) in
      let contact := setattr contact "email" (VStr (body_contact_email b)) in
      let contact :=
        setattr contact "phoneNumber" (VStr (body_phone_number b)) in
      let contact := setattr contact "birthDate" (VDate (body_birth_date b)) in
      let contact := setattr contact "rest" (VStr (body_rest b)) in
      s <- get ;;
      put (flush_contact contact s) ;;;
      s' <- get ;;
      ret (Some (refresh_contact contact s'))
  | None => ret None
  end.

Definition delete_contact (contact_id user_id : Z)
  : M state (option Contact.t) :=
  contact <- read_contact contact_id user_id ;;
  match contact with
  | Some c =>
      s <- get ;;
      put (with_contacts s
             (filter (fun r => negb (Contact.id r =? Contact.id c))
                     (contacts s))) ;;;
      ret (Some c)
  | None => ret None
  end.

End RepoContacts.

(** ** Collaborators of the routes

    [src/services/auth.py] ([auth_service]) and the avatar lookup are
    outside the sources at hand; the routes are parametrised by them.  The
    token functions read the clock, which is their first argument. *)
Record Services : Type := mkServices {
  get_password_hash : string -> string;
  verify_password : string -> string -> bool;
  create_access_token : Z -> string -> string;
  create_refresh_token : Z -> string -> string;
  decode_refresh_token : Z -> string -> outcome string;
  get_email_from_token : Z -> string -> outcome string;
  gravatar_get_image : string -> option string
}.

(** ** Authentication routes ([src/routes/auth.py]) *)
Module RouteAuth.

Local Open Scope monad_scope.
Local Open Scope string_scope.

Definition HTTP_400_BAD_REQUEST : Z := 400.
Definition HTTP_401_UNAUTHORIZED : Z := 401.
Definition HTTP_409_CONFLICT : Z := 409.

Definition signup (svc : Services) (base_url : string)
  (body : UserValidationSchema) : M state User.t :=
  exist_user <- RepoUsers.get_user_by_email (body_email body) ;;
  match exist_user with
  | Some _ => raise_http HTTP_409_CONFLICT "Account already exists"
  | None =>
      let body :=
        mkUserBody (body_username body) (body_email body)
                   (get_password_hash svc (body_hash body)) in
      new_user <- RepoUsers.create_user (gravatar_get_image svc) body ;;
      s <- get ;;
      put (mkstate (users s) (contacts s) (next_user_id s)
                   (next_contact_id s)
                   (tasks s ++ [mkEmailTask (User.email new_user)
                                            (User.username new_user)
                                            base_url])) ;;;
      ret new_user
  end.

Definition login (svc : Services) (now : Z)
  (body : OAuth2PasswordRequestForm) : M state TokenSchema :=
  user <- RepoUsers.get_user_by_email (form_username body) ;;
  match user with
  | None => raise_http HTTP_401_UNAUTHORIZED "Invalid email"
  | Some user =>
      if negb (User.confirmed user)
      then raise_http HTTP_401_UNAUTHORIZED "Email not confirmed"
      else if negb (verify_password svc (form_password body) (User.hash user))
      then raise_http HTTP_401_UNAUTHORIZED "Invalid password"
      else
        let access_token := create_access_token svc now (User.email user) in
        let refresh_token := create_refresh_token svc now (User.email user) in
        RepoUsers.update_token user (Some refresh_token) ;;;
        ret (mkTokens access_token refresh_token "bearer")
  end.

(** [user.refresh_token != token]. *)
Definition token_differs (stored : option string) (token : string) : bool :=
  match stored with
  | Some t => negb (String.eqb t token)
  | None => true
  end.

Definition refresh_token (svc : Services) (now : Z) (token : string)
  : M state TokenSchema :=
  email <- lift (decode_refresh_token svc now token) ;;
  user <- RepoUsers.get_user_by_email email ;;
  match user with
  | None => raise AttributeError
  | Some user =>
      if token_differs (User.refresh_token user) token
      then
        RepoUsers.update_token user None ;;;
        raise_http HTTP_401_UNAUTHORIZED "Invalid refresh token"
      else
        let access_token := create_access_token svc now email in
        let refresh_token := create_refresh_token svc now email in
        RepoUsers.update_token user (Some refresh_token) ;;;
        ret (mkTokens access_token refresh_token "bearer")
  end.

Definition confirmed_email (svc : Services) (now : Z) (token : string)
  : M state string :=
  email <- lift (get_email_from_token svc now token) ;;
  user <- RepoUsers.get_user_by_email email ;;
  match user with
  | None => raise_http HTTP_400_BAD_REQUEST "Verification error"
  | Some user =>
      if User.confirmed user then ret "Your email is already confirmed"
      else
        RepoUsers.confirmed_email email ;;;
        ret "Email confirmed"
  end.

(** The requests the auth router serves, and the state each leaves
    behind. *)
Inductive AuthRequest : Type :=
| Signup (base_url : string) (body : UserValidationSchema)
| Login (now : Z) (body : OAuth2PasswordRequestForm)
| RefreshToken (now : Z) (token : string)
| ConfirmedEmail (now : Z) (token : string).

Definition serve (svc : Services) (r : AuthRequest) (s : state) : state :=
  match r with
  | Signup base_url body => snd (signup svc base_url body s)
  | Login now body => snd (login svc now body s)
  | RefreshToken now token => snd (refresh_token svc now token s)
  | ConfirmedEmail now token => snd (confirmed_email svc now token s)
  end.

End RouteAuth.

(** ** Contact routes ([src/routes/contacts.py])

    [current_user] is the user [auth_service.get_current_user] resolved
    from the bearer token; the rate limiter runs before the handler and is
    not part of it. *)
Module RouteContacts.

Local Open Scope monad_scope.

Definition HTTP_200_OK : Z := 200.
Definition HTTP_201_CREATED : Z := 201.
Definition HTTP_204_NO_CONTENT : Z := 204.
Definition HTTP_404_NOT_FOUND : Z := 404.

Definition read_all_contacts (today : Calendar.date) (limit offset : Z)
  (name last_name email : option string) (find_BD : bool)
  (current_user : User.t) : M state (list Contact.t) :=
  contacts <- RepoContacts.read_all_contacts today limit offset name
                last_name email find_BD (User.id current_user) ;;
  ret contacts.

Definition read_contact (contact_id : Z) (current_user : User.t)
  : M state (option Contact.t) :=
  contact <- RepoContacts.read_contact contact_id (User.id current_user) ;;
  ret contact.

Definition add_contact (body : ContactValidationSchema)
  (current_user : User.t) : M state Contact.t :=
  contact <- RepoContacts.add_contact body (User.id current_user) ;;
  ret contact.

Definition update_contact (body : ContactValidationSchemaResponse)
  (contact_id : Z) (current_user : User.t)
  : M state (option ContactInstance) :=
  contact <- RepoContacts.update_contact body contact_id
               (User.id current_user) ;;
  ret contact.

(** The handler awaits the store and returns nothing. *)
Definition delete_contact (contact_id : Z) (current_user : User.t)
  : M state unit :=
  RepoContacts.delete_contact contact_id (User.id current_user) ;;;
  ret tt.

End RouteContacts.

(** ** Application module ([main.py]) *)
Module Main.

Local Open Scope monad_scope.
Local Open Scope string_scope.

(** [try: body  except Exception as e: print(e); handler].  Every way of
    leaving the body by an exception, [HTTPException] included, lands in
    the handler. *)
Definition try_except_Exception {S A : Type} (body handler : M S A)
  : M S A :=
  fun s =>
    match body s with
    | (Return a, s') => (Return a, s')
    | (HTTPException _ _, s') => handler s'
    | (Uncaught _, s') => handler s'
    end.

(** [select_1] is what [(await db.execute(text("SELECT 1"))).fetchone()]
    gives: a row, no row, or an exception of the driver. *)
Definition healthchecker (select_1 : outcome (option Z)) : M state string :=
  try_except_Exception
    (result <- lift select_1 ;;
     match result with
     | None => raise_http 500 "Database is not configured correctly"
     | Some _ => ret "Welcome to FastAPI!"
     end)
    (raise_http 500 "Error connecting to the database").

End Main.

(** ** The contact router as a whole *)
Module ContactRouter.

(** The requests the contact router serves for an authenticated user. *)
Inductive ContactRequest : Type :=
| ReadAll (today : Calendar.date) (limit offset : Z)
          (name last_name email : option string) (find_BD : bool)
| Read (contact_id : Z)
| Add (body : ContactValidationSchema)
| Update (body : ContactValidationSchemaResponse) (contact_id : Z)
| Delete (contact_id : Z).

Definition rows_of (o : outcome (list Contact.t)) : list Contact.t :=
  match o with
  | Return rows => rows
  | _ => []
  end.

Definition row_of (o : outcome (option Contact.t)) : list Contact.t :=
  match o with
  | Return (Some c) => [c]
  | _ => []
  end.

(** The contacts a request hands back to the caller, and the state it
    leaves behind. *)
Definition serve (r : ContactRequest) (current_user : User.t) (s : state)
  : list Contact.t * state :=
  match r with
  | ReadAll today limit offset name last_name email find_BD =>
      let (o, s') :=
        RouteContacts.read_all_contacts today limit offset name last_name
          email find_BD current_user s in
      (rows_of o, s')
  | Read contact_id =>
      let (o, s') := RouteContacts.read_contact contact_id current_user s in
      (row_of o, s')
  | Add body =>
      let (o, s') := RouteContacts.add_contact body current_user s in
      (match o with Return c => [c] | _ => [] end, s')
  | Update body contact_id =>
      let (o, s') :=
        RouteContacts.update_contact body contact_id current_user s in
      (match o with Return (Some obj) => [row obj] | _ => [] end, s')
  | Delete contact_id =>
      let (_, s') := RouteContacts.delete_contact contact_id current_user s in
      ([], s')
  end.

End ContactRouter.

(** ** The id columns at the driver *)
Module Driver.

Local Open Scope monad_scope.

(** Modelled from the spec: the entity declarations
    ([src/entity/models.py]) are not among the sources; the ids are integer
    columns, and an integer column has a range.  The bounds are a parameter
    of what follows; [int4] is PostgreSQL's INTEGER. *)
Record IdColumn : Type := mkIdColumn {
  id_min : Z;
  id_max : Z
}.

Definition int4 : IdColumn := mkIdColumn (-2147483648) 2147483647.

(** Whether the driver can encode [z] as a parameter compared with an id
    column. *)
Definition fits (col : IdColumn) (z : Z) : bool :=
  (id_min col <=? z) && (z <=? id_max col).

(** [await db.execute(stmt)] with the bound parameters [params]: a
    parameter out of the column's range makes the driver refuse the
    statement, which SQLAlchemy raises as a [DBAPIError], before anything
    is read or written. *)
Definition execute {A : Type} (col : IdColumn) (params : list Z)
  (stmt : M state A) : M state A :=
  if forallb (fits col) params then stmt else raise DBAPIError.

(** The by-id store functions of [repository/contacts.py]: each starts
    with the select by [contact_id] and [user_id]. *)
Definition read_contact (col : IdColumn) (contact_id user_id : Z)
  : M state (option Contact.t) :=
  execute col [contact_id; user_id]
    (RepoContacts.read_contact contact_id user_id).

Definition update_contact (col : IdColumn)
  (body : ContactValidationSchemaResponse) (contact_id user_id : Z)
  : M state (option ContactInstance) :=
  execute col [contact_id; user_id]
    (RepoContacts.update_contact body contact_id user_id).

Definition delete_contact (col : IdColumn) (contact_id user_id : Z)
  : M state (option Contact.t) :=
  execute col [contact_id; user_id]
    (RepoContacts.delete_contact contact_id user_id).

End Driver.

(** ** The by-id contact routes as FastAPI serves them *)
Module ContactApi.

Local Open Scope monad_scope.

Definition HTTP_422_UNPROCESSABLE_ENTITY : Z := 422.
Definition HTTP_500_INTERNAL_SERVER_ERROR : Z := 500.

(** A response: the status line and the JSON body, if there is one.  The
    body of an error response (its detail) is not modelled. *)
Record Response (A : Type) : Type := mkResponse {
  status_code : Z;
  content : option A
}.

Arguments mkResponse {A} _ _.
Arguments status_code {A} _.
Arguments content {A} _.

(** [Path(ge=bound)] on an [int] path parameter. *)
Definition path_ge (bound value : Z) : bool := bound <=? value.

(** What FastAPI makes of a handler's outcome.  [response_model] validates
    the value returned; a value it refuses is a [ResponseValidationError],
    which nothing catches. *)
Definition respond {A B : Type} (declared : Z)
  (response_model : A -> option B) (o : outcome A) : Response B :=
  match o with
  | Return a =>
      match response_model a with
      | Some b => mkResponse declared (Some b)
      | None => mkResponse HTTP_500_INTERNAL_SERVER_ERROR None
      end
  | HTTPException c _ => mkResponse c None
  | Uncaught _ => mkResponse HTTP_500_INTERNAL_SERVER_ERROR None
  end.

(** A route whose success status allows no body (204): the value the
    handler returns is dropped. *)
Definition respond_empty {A B : Type} (declared : Z) (o : outcome A)
  : Response B :=
  match o with
  | Return _ => mkResponse declared None
  | HTTPException c _ => mkResponse c None
  | Uncaught _ => mkResponse HTTP_500_INTERNAL_SERVER_ERROR None
  end.

(** Modelled from the spec: [response_model=ContactValidationSchemaResponse]
    ([src/schemas/contacts.py] is not among the sources).  A stored contact
    validates; [None] is not a contact and does not. *)
Definition contact_response_model (r : option Contact.t)
  : option Contact.t := r.

(** A route without response model: whatever the handler returns is
    encoded, [None] as JSON null. *)
Definition no_response_model {A : Type} (a : A) : option A := Some a.

(** The routes below are those of [routes/contacts.py] that take a
    [contact_id], for a request of the authenticated [current_user] that
    the rate limiter lets through.  Path parameters are validated before
    the handler is called; a request that fails validation is answered
    422 and reaches neither the handler nor the database. *)

(** [GET /contacts/{contact_id}], [contact_id: int = Path(ge=1)],
    [response_model=ContactValidationSchemaResponse]. *)
Definition read_contact (col : Driver.IdColumn) (contact_id : Z)
  (current_user : User.t) (s : state) : Response Contact.t * state :=
  if path_ge 1 contact_id then
    let (o, s') :=
      (contact <- Driver.read_contact col contact_id
                    (User.id current_user) ;;
       ret contact) s in
    (respond RouteContacts.HTTP_200_OK contact_response_model o, s')
  else (mkResponse HTTP_422_UNPROCESSABLE_ENTITY None, s).

(** [PUT /contacts/{contact_id}], [contact_id: int], no response model. *)
Definition update_contact (col : Driver.IdColumn)
  (body : ContactValidationSchemaResponse) (contact_id : Z)
  (current_user : User.t) (s : state)
  : Response (option ContactInstance) * state :=
  let (o, s') :=
    (contact <- Driver.update_contact col body contact_id
                  (User.id current_user) ;;
     ret contact) s in
  (respond RouteContacts.HTTP_200_OK no_response_model o, s').

(** [DELETE /contacts/{contact_id}], [contact_id: int = Path(ge=1)],
    [status_code=204]: the handler returns nothing and the response has no
    body. *)
Definition delete_contact (col : Driver.IdColumn) (contact_id : Z)
  (current_user : User.t) (s : state) : Response unit * state :=
  if path_ge 1 contact_id then
    let (o, s') :=
      (Driver.delete_contact col contact_id (User.id current_user) ;;;
       ret tt) s in
    (respond_empty RouteContacts.HTTP_204_NO_CONTENT o, s')
  else (mkResponse HTTP_422_UNPROCESSABLE_ENTITY None, s).

End ContactApi.

(** * Vocabulary of the statements *)

(** ** Invariants of the tables *)

(** Rows that are confirmed stay in the table, confirmed. *)
Definition confirmed_kept (s s' : state) : Prop :=
  forall u, In u (users s) -> User.confirmed u = true ->
    exists u', In u' (users s')
               /\ User.id u' = User.id u
               /\ User.email u' = User.email u
               /\ User.confirmed u' = true.

(** Rows of the users table stay, with their id, email, username and
    password hash. *)
Definition identity_kept (s s' : state) : Prop :=
  forall u, In u (users s) ->
    exists u', In u' (users s')
               /\ User.id u' = User.id u
               /\ User.email u' = User.email u
               /\ User.username u' = User.username u
               /\ User.hash u' = User.hash u.

(** The users side of the state (table, id sequence, scheduled emails) is
    the same in [s'] as in [s]; likewise the contacts side. *)
Definition users_side_kept (s s' : state) : Prop :=
  users s' = users s /\ next_user_id s' = next_user_id s
  /\ tasks s' = tasks s.

Definition contacts_side_kept (s s' : state) : Prop :=
  contacts s' = contacts s /\ next_contact_id s' = next_contact_id s.

(** The unique constraint on users.email. *)
Definition emails_unique (s : state) : Prop :=
  NoDup (map User.email (users s)).

(** The primary key: no two rows of the contacts table share an id, and
    the id sequence is ahead of every id in use. *)
Definition contacts_keyed (s : state) : Prop :=
  NoDup (map Contact.id (contacts s))
  /\ (forall c, In c (contacts s) -> Contact.id c < next_contact_id s).

(** ** Birthdays on the calendar *)
Module Birthday.

Import Calendar.

(** Month and day of a date, and their lexicographic order. *)
Definition md (d : date) : Z * Z := (month d, day d).

Definition md_ltb (a b : Z * Z) : bool :=
  (fst a <? fst b) || ((fst a =? fst b) && (snd a <? snd b)).

Definition md_leb (a b : Z * Z) : bool := negb (md_ltb b a).

(** [x] lies in the part of the year that starts at [lo] and ends just
    before [hi], running over the turn of the year when [lo] is not before
    [hi]. *)
Definition in_window (lo hi x : Z * Z) : bool :=
  if md_ltb lo hi then md_leb lo x && md_ltb x hi
  else md_leb lo x || md_ltb x hi.

(** Month and day of each of the [n] days after [today]. *)
Definition upcoming_days (today : date) (n : nat) : list (Z * Z) :=
  map (fun k => md (date_plus_days today (Z.of_nat k))) (seq 1 n).

Definition has_md (x : Z * Z) (l : list (Z * Z)) : bool :=
  existsb (fun y => (fst y =? fst x) && (snd y =? snd x)) l.

(** One of the [n] days after [today] has the month and day of [bd]. *)
Definition anniversary_within (today bd : date) (n : nat) : bool :=
  has_md (md bd) (upcoming_days today n).

(** The week before the birthday does not run over the end of February. *)
Definition feb_clear (bmd : Z * Z) : bool :=
  negb ((fst bmd =? 3) && (snd bmd <=? 7))
  && negb ((fst bmd =? 2) && (snd bmd =? 29)).

(** Two dates with the same month and day whose calendars agree for the
    next [k] steps back: either the years have the same leap status, or
    both are in December with more than [k] days behind them. *)
Definition back_related (k : Z) (p q : date) : Prop :=
  month p = month q /\ day p = day q
  /\ (isleap (year p) = isleap (year q) \/ (month q = 12 /\ k < day q)).

(** The same going forward: same leap status, or both in January with
    room for [k] more days. *)
Definition forth_related (k : Z) (p q : date) : Prop :=
  month p = month q /\ day p = day q
  /\ (isleap (year p) = isleap (year q) \/ (month q = 1 /\ day q + k <= 31)).

End Birthday.

(** ** The calendar, case by case

    What the filter and the next seven days look like depends on the
    birthday's month and day, on today's month and day, and on whether the
    two years are leap years; these are the finitely many cases, and the
    two facts checked on all of them. *)
Module CalendarCases.

Import Calendar Birthday.

(** A leap and a common year to stand for all others. *)
Definition representative (leap : bool) : Z := if leap then 2000 else 2001.

Definition shift_year (delta : Z) (d : date) : date :=
  mkdate (year d + delta) (month d) (day d).

Definition month_days : list (Z * Z) :=
  list_prod (map Z.of_nat (seq 1 12)) (map Z.of_nat (seq 1 31)).

(** Every (leap status, month, day) that is a date. *)
Definition calendar_cases : list (bool * (Z * Z)) :=
  filter (fun c => valid_date (mkdate (representative (fst c))
                                      (fst (snd c)) (snd (snd c))))
         (list_prod [true; false] month_days).

(** For a birthday: how many years back the day a week earlier lies, and
    that day's month and day. *)
Definition birth_entry (c : bool * (Z * Z)) : Z * (Z * Z) :=
  let b := mkdate (representative (fst c)) (fst (snd c)) (snd (snd c)) in
  let b' := date_minus_days b 7 in
  (year b - year b', md b').

Definition today_entry (c : bool * (Z * Z)) : list (Z * Z) :=
  upcoming_days (mkdate (representative (fst c)) (fst (snd c)) (snd (snd c)))
                7.

Definition window_holds (bmd : Z * Z) (e : Z * (Z * Z)) (tmd : Z * Z)
  : bool :=
  Bool.eqb
    (0 <? fst e + (if md_ltb tmd bmd then 1 else 0)
          - (if md_ltb tmd (snd e) then 1 else 0))
    (in_window (snd e) bmd tmd).

Definition window_check : bool :=
  forallb (fun c =>
    let e := birth_entry c in
    forallb (fun tmd => window_holds (snd c) e tmd) month_days)
    calendar_cases.

Definition anniversary_holds (cb : bool * (Z * Z)) (e : Z * (Z * Z))
  (ct : bool * (Z * Z)) (up : list (Z * Z)) : bool :=
  implb (feb_clear (snd cb) || Bool.eqb (fst cb) (fst ct))
        (Bool.eqb (in_window (snd e) (snd cb) (snd ct))
                  (has_md (snd cb) up))
  && implb (md_leb (snd cb) (snd ct) && negb (has_md (snd cb) up))
           (negb (in_window (snd e) (snd cb) (snd ct))).

Definition anniversary_check : bool :=
  let births := map (fun c => (c, birth_entry c)) calendar_cases in
  forallb (fun ct =>
    let up := today_entry ct in
    forallb (fun be => anniversary_holds (fst be) (snd be) ct up) births)
    calendar_cases.

End CalendarCases.

Strategy expand [CalendarCases.window_check CalendarCases.anniversary_check
                 CalendarCases.calendar_cases CalendarCases.month_days].

(** ** How far the filter can be from the next seven days *)
Module CalendarBounds.

Import Calendar Birthday CalendarCases.

Definition is_feb29 (bmd : Z * Z) : bool :=
  (fst bmd =? 2) && (snd bmd =? 29).

Definition upcoming_entry (n : nat) (c : bool * (Z * Z)) : list (Z * Z) :=
  upcoming_days (mkdate (representative (fst c)) (fst (snd c)) (snd (snd c)))
                n.

(** A birthday in the next 6 days is in the window, and whatever is in the
    window has its birthday in the next 8 days, unless it is 29 February. *)
Definition bounds_holds (cb : bool * (Z * Z)) (e : Z * (Z * Z))
  (ct : bool * (Z * Z)) (up6 up8 : list (Z * Z)) : bool :=
  implb (has_md (snd cb) up6) (in_window (snd e) (snd cb) (snd ct))
  && implb (in_window (snd e) (snd cb) (snd ct))
           (has_md (snd cb) up8 || is_feb29 (snd cb)).

Definition bounds_check : bool :=
  let births := map (fun c => (c, birth_entry c)) calendar_cases in
  forallb (fun ct =>
    let up6 := upcoming_entry 6 ct in
    let up8 := upcoming_entry 8 ct in
    forallb (fun be => bounds_holds (fst be) (snd be) ct up6 up8) births)
    calendar_cases.

End CalendarBounds.

Strategy expand [CalendarBounds.bounds_check].

(** ** Sample data *)
Module Sample.

Local Open Scope string_scope.

Definition token_prefix : string := "refresh:".

(** A token service that hashes by prefixing and whose refresh tokens
    spell out their subject. *)
Definition services : Services :=
  mkServices
    (fun password => "hashed:" ++ password)
    (fun password hash => String.eqb ("hashed:" ++ password) hash)
    (fun _ email => "access:" ++ email)
    (fun _ email => token_prefix ++ email)
    (fun _ token =>
       if String.prefix token_prefix token
       then Return (String.substring 8 (String.length token - 8) token)
       else HTTPException 401 "Invalid scope for token")
    (fun _ token => Return token)
    (fun _ => None).

Definition alice : User.t :=
  User.mk 1 "alice" "alice@example.com" "hashed:secret" None
          (Some "refresh:current") true.

Definition bob : User.t :=
  User.mk 2 "bob" "bob@example.com" "hashed:hunter2" None None false.

Definition ann : Contact.t :=
  Contact.mk 1 "Ann" "Lee" "ann@example.com" "111"
             (Calendar.mkdate 1990 6 15) "friend" 1.

Definition ben : Contact.t :=
  Contact.mk 2 "Ben" "Ray" "ben@example.com" "222"
             (Calendar.mkdate 1985 1 3) "work" 2.

Definition db : state := mkstate [alice; bob] [ann; ben] 3 3 [].

Definition new_fields : ContactValidationSchema :=
  mkContactBody "Anna" "Smith" "anna@example.com" "333"
                (Calendar.mkdate 1991 6 18) "colleague".

End Sample.

(** ** Sample data with a clock *)
Module Clocked.

Local Open Scope string_scope.

(** A token service whose refresh tokens change with the time of issue,
    whose confirmation tokens spell out their subject after "confirm:",
    and an avatar lookup that finds an image. *)
Definition services : Services :=
  mkServices
    (fun password => "hashed:" ++ password)
    (fun password hash => String.eqb ("hashed:" ++ password) hash)
    (fun _ email => "access:" ++ email)
    (fun now email => (if (now <=? 1)%Z then "r1:" else "r2:") ++ email)
    (fun _ token =>
       if String.prefix "r1:" token || String.prefix "r2:" token
       then Return (String.substring 3 (String.length token - 3) token)
       else HTTPException 401 "Could not validate credentials")
    (fun _ token =>
       if String.prefix "confirm:" token
       then Return (String.substring 8 (String.length token - 8) token)
       else HTTPException 422 "Invalid token for email verification")
    (fun email => Some ("https://avatar.example/" ++ email)).

Definition carol : UserValidationSchema :=
  mkUserBody "carol" "carol@example.com" "pw".

End Clocked.

(** * Verification *)

(** ** Shared facts about the stores *)

Lemma filter_none {A : Type} (f : A -> bool) (l : list A) :
  (forall x, In x l -> f x = false) -> filter f l = [].
Proof.
  induction l as [|a l IH]; cbn; intros H; [reflexivity|].
  rewrite (H a) by now left. apply IH. intros x Hx. apply H. now right.
Qed.

Lemma NoDup_snoc {A : Type} (l : list A) (x : A) :
  NoDup l -> ~ In x l -> NoDup (l ++ [x]).
Proof.
  induction l as [|a l IH]; cbn; intros Hnd Hx.
  - constructor; [tauto|constructor].
  - inversion Hnd as [|y l' Hnotin Hnd']; subst. constructor.
    + rewrite in_app_iff. cbn. intros [H|[H|[]]]; [tauto|].
      apply Hx. now left.
    + apply IH; tauto.
Qed.

Lemma scalar_one_or_none_some {A : Type} (rows : list A) (x : A) :
  scalar_one_or_none rows = Return (Some x) <-> rows = [x].
Proof.
  split.
  - destruct rows as [|a [|b rest]]; cbn; intros H; try discriminate.
    now inversion H.
  - now intros ->.
Qed.

Lemma scalar_one_or_none_none {A : Type} (rows : list A) :
  scalar_one_or_none rows = Return None <-> rows = [].
Proof.
  split.
  - destruct rows as [|a [|b rest]]; cbn; intros H; try discriminate.
    reflexivity.
  - now intros ->.
Qed.

Lemma get_user_by_email_state (email : string) (s : state) :
  RepoUsers.get_user_by_email email s
  = (scalar_one_or_none (RepoUsers.select_by_email email s), s).
Proof. reflexivity. Qed.

Lemma get_user_by_email_some (email : string) (s s' : state) (u : User.t) :
  RepoUsers.get_user_by_email email s = (Return (Some u), s')
  <-> RepoUsers.select_by_email email s = [u] /\ s' = s.
Proof.
  rewrite get_user_by_email_state. split.
  - intros H. inversion H. subst s'. split; [|reflexivity].
    now apply scalar_one_or_none_some.
  - intros [-> ->]. reflexivity.
Qed.

Lemma get_user_by_email_none (email : string) (s s' : state) :
  RepoUsers.get_user_by_email email s = (Return None, s')
  <-> RepoUsers.select_by_email email s = [] /\ s' = s.
Proof.
  rewrite get_user_by_email_state. split.
  - intros H. inversion H. subst s'. split; [|reflexivity].
    now apply scalar_one_or_none_none.
  - intros [-> ->]. reflexivity.
Qed.

Lemma selected_user_email (email : string) (s : state) (u : User.t) :
  In u (RepoUsers.select_by_email email s) -> User.email u = email.
Proof.
  unfold RepoUsers.select_by_email. intros H.
  apply filter_In in H. destruct H as [_ H]. now apply String.eqb_eq.
Qed.

(** Flushing a change that keeps id and email commutes with the lookup by
    email. *)
Lemma select_by_email_flush (email : string) (uid : Z)
  (f : User.t -> User.t) (s : state) :
  (forall u, User.email (f u) = User.email u) ->
  RepoUsers.select_by_email email (RepoUsers.flush_user uid f s)
  = map (fun u => if User.id u =? uid then f u else u)
        (RepoUsers.select_by_email email s).
Proof.
  intros Hf. unfold RepoUsers.select_by_email, RepoUsers.flush_user. cbn.
  induction (users s) as [|u us IH]; cbn; [reflexivity|].
  destruct (User.id u =? uid) eqn:E.
  - rewrite Hf. destruct (String.eqb (User.email u) email); cbn.
    + rewrite E. now f_equal.
    + exact IH.
  - destruct (String.eqb (User.email u) email); cbn.
    + rewrite E. now f_equal.
    + exact IH.
Qed.

Lemma flush_user_idem (uid : Z) (f : User.t -> User.t) (s : state) :
  (forall u, User.id (f u) = User.id u) ->
  (forall u, f (f u) = f u) ->
  RepoUsers.flush_user uid f (RepoUsers.flush_user uid f s)
  = RepoUsers.flush_user uid f s.
Proof.
  intros Hid Hff. unfold RepoUsers.flush_user, with_users. cbn. f_equal.
  rewrite map_map. apply map_ext. intros u.
  destruct (User.id u =? uid) eqn:E.
  - rewrite Hid, E. apply Hff.
  - now rewrite E.
Qed.

Lemma token_differs_true (stored : option string) (token : string) :
  RouteAuth.token_differs stored token = true <-> stored <> Some token.
Proof.
  unfold RouteAuth.token_differs. destruct stored as [t|].
  - rewrite negb_true_iff. split.
    + intros H Heq. inversion Heq. subst t.
      now rewrite String.eqb_refl in H.
    + intros H. apply String.eqb_neq. intros ->. now apply H.
  - split; [discriminate | reflexivity].
Qed.

(** ** Authentication flow *)
Section AuthFlow.

Variable svc : Services.

Local Open Scope string_scope.
Local Open Scope list_scope.
Local Open Scope Z_scope.

(** C5: login fails with "Invalid email" for an unknown email, with "Email
    not confirmed" for a known unconfirmed user whatever the password, with
    "Invalid password" for a confirmed user whose password does not verify;
    the three messages are pairwise distinct; a confirmed user with a
    verifying password gets the token pair, and whoever gets a token pair
    is a confirmed user whose password verified. *)
Theorem login_outcomes (now : Z) (body : OAuth2PasswordRequestForm)
  (s : state) :
  (RepoUsers.get_user_by_email (form_username body) s = (Return None, s) ->
   RouteAuth.login svc now body s
   = (HTTPException 401 "Invalid email", s))
  /\ (forall u,
        RepoUsers.get_user_by_email (form_username body) s
        = (Return (Some u), s) ->
        User.confirmed u = false ->
        RouteAuth.login svc now body s
        = (HTTPException 401 "Email not confirmed", s))
  /\ (forall u,
        RepoUsers.get_user_by_email (form_username body) s
        = (Return (Some u), s) ->
        User.confirmed u = true ->
        verify_password svc (form_password body) (User.hash u) = false ->
        RouteAuth.login svc now body s
        = (HTTPException 401 "Invalid password", s))
  /\ ("Invalid email" <> "Email not confirmed"
      /\ "Invalid email" <> "Invalid password"
      /\ "Email not confirmed" <> "Invalid password")
  /\ (forall u,
        RepoUsers.get_user_by_email (form_username body) s
        = (Return (Some u), s) ->
        User.confirmed u = true ->
        verify_password svc (form_password body) (User.hash u) = true ->
        RouteAuth.login svc now body s
        = (Return (mkTokens (create_access_token svc now (User.email u))
                            (create_refresh_token svc now (User.email u))
                            "bearer"),
           RepoUsers.flush_user (User.id u)
             (fun r => User.set_refresh_token r
                         (Some (create_refresh_token svc now (User.email u))))
             s))
  /\ (forall tokens s',
        RouteAuth.login svc now body s = (Return tokens, s') ->
        exists u,
          RepoUsers.get_user_by_email (form_username body) s
          = (Return (Some u), s)
          /\ User.confirmed u = true
          /\ verify_password svc (form_password body) (User.hash u) = true).
Proof.
  unfold RouteAuth.login.
  repeat split.
  - intros H. unfold bind at 1. now rewrite H.
  - intros u H Hc. unfold bind at 1. rewrite H, Hc. reflexivity.
  - intros u H Hc Hv. unfold bind at 1. rewrite H, Hc, Hv. reflexivity.
  - discriminate.
  - discriminate.
  - discriminate.
  - intros u H Hc Hv. unfold bind at 1. rewrite H, Hc, Hv. reflexivity.
  - intros tokens s'. unfold bind at 1.
    rewrite get_user_by_email_state.
    destruct (scalar_one_or_none _) as [[u|]| |]; try discriminate.
    destruct (User.confirmed u) eqn:Hc; cbn; try discriminate.
    destruct (verify_password svc _ _) eqn:Hv; cbn; try discriminate.
    intros _. exists u. auto.
Qed.

(** C2: when the presented refresh token decodes to a user's email and is
    not the token stored on that user's row, the refresh fails with 401
    "Invalid refresh token" and the stored token becomes null: the row
    found by that email afterwards holds no refresh token and is otherwise
    the row as it was, every other row and table is as before.  From then
    on every refresh for that user fails the same way, whatever token is
    presented (the replayed one, or the one that was stored), and the
    replayed token never succeeds, decoding or not. *)
Theorem refresh_token_mismatch_revokes (now : Z) (token email : string)
  (u : User.t) (s : state) :
  decode_refresh_token svc now token = Return email ->
  RepoUsers.get_user_by_email email s = (Return (Some u), s) ->
  User.refresh_token u <> Some token ->
  exists (s' : state) (u' : User.t),
    RouteAuth.refresh_token svc now token s
    = (HTTPException 401 "Invalid refresh token", s')
    /\ RepoUsers.get_user_by_email email s' = (Return (Some u'), s')
    /\ User.refresh_token u' = None
    /\ u' = User.mk (User.id u) (User.username u) (User.email u)
              (User.hash u) (User.avatar u) None (User.confirmed u)
    /\ users s'
       = map (fun r =>
                if User.id r =? User.id u
                then User.mk (User.id r) (User.username r) (User.email r)
                       (User.hash r) (User.avatar r) None (User.confirmed r)
                else r)
           (users s)
    /\ contacts s' = contacts s
    /\ next_user_id s' = next_user_id s
    /\ next_contact_id s' = next_contact_id s
    /\ tasks s' = tasks s
    /\ (forall later presented,
          decode_refresh_token svc later presented = Return email ->
          RouteAuth.refresh_token svc later presented s'
          = (HTTPException 401 "Invalid refresh token", s'))
    /\ (forall later tokens s'',
          (forall e, decode_refresh_token svc later token = Return e ->
                     e = email) ->
          RouteAuth.refresh_token svc later token s' <> (Return tokens, s'')).
Proof.
  intros Hdec Hget Hneq.
  set (s' := RepoUsers.flush_user (User.id u)
               (fun r => User.set_refresh_token r None) s).
  assert (Hget' : RepoUsers.get_user_by_email email s'
                  = (Return (Some (User.set_refresh_token u None)), s')).
  { apply get_user_by_email_some in Hget. destruct Hget as [Hsel _].
    apply get_user_by_email_some. split; [|reflexivity].
    unfold s'. rewrite select_by_email_flush by reflexivity.
    rewrite Hsel. cbn. now rewrite Z.eqb_refl. }
  assert (Hreplay : forall later presented,
             decode_refresh_token svc later presented = Return email ->
             RouteAuth.refresh_token svc later presented s'
             = (HTTPException 401 "Invalid refresh token", s')).
  { intros later presented Hlater.
    unfold RouteAuth.refresh_token, lift. unfold bind at 1. rewrite Hlater.
    unfold bind at 1. rewrite Hget'. cbn.
    unfold bind, RepoUsers.update_token, get, put, raise_http. cbn.
    unfold bind. cbn. f_equal.
    unfold s'. now apply flush_user_idem. }
  exists s', (User.set_refresh_token u None).
  split; [|split; [|split; [|split; [|split; [|split; [|split;
    [|split; [|split; [|split]]]]]]]]].
  - unfold RouteAuth.refresh_token, lift. unfold bind at 1. rewrite Hdec.
    unfold bind at 1. rewrite Hget.
    apply token_differs_true in Hneq. rewrite Hneq. reflexivity.
  - exact Hget'.
  - reflexivity.
  - reflexivity.
  - reflexivity.
  - reflexivity.
  - reflexivity.
  - reflexivity.
  - reflexivity.
  - exact Hreplay.
  - intros later tokens s'' Hsubj.
    destruct (decode_refresh_token svc later token) as [e| |] eqn:Hlater.
    + rewrite (Hsubj e eq_refl) in Hlater.
      rewrite (Hreplay later token Hlater). discriminate.
    + unfold RouteAuth.refresh_token, lift. unfold bind at 1.
      rewrite Hlater. discriminate.
    + unfold RouteAuth.refresh_token, lift. unfold bind at 1.
      rewrite Hlater. discriminate.
Qed.

(** C10: once the token has decoded, the user row found by the decoded
    email is dereferenced unguarded: with no such user the refresh dies
    with an uncaught AttributeError (not an authentication error) and
    changes nothing, and the "Invalid refresh token" error is only ever
    produced when a user with that email exists. *)
Theorem refresh_token_needs_user (now : Z) (token email : string)
  (s : state) :
  decode_refresh_token svc now token = Return email ->
  (RepoUsers.get_user_by_email email s = (Return None, s) ->
   RouteAuth.refresh_token svc now token s = (Uncaught AttributeError, s))
  /\ (forall s',
        RouteAuth.refresh_token svc now token s
        = (HTTPException 401 "Invalid refresh token", s') ->
        exists u,
          RepoUsers.get_user_by_email email s = (Return (Some u), s)
          /\ User.refresh_token u <> Some token).
Proof.
  intros Hdec. split.
  - intros Hnone. unfold RouteAuth.refresh_token, lift.
    unfold bind at 1. rewrite Hdec. unfold bind at 1. now rewrite Hnone.
  - intros s'. unfold RouteAuth.refresh_token, lift.
    unfold bind at 1. rewrite Hdec. unfold bind at 1.
    rewrite get_user_by_email_state.
    destruct (RepoUsers.select_by_email email s) as [|u [|u' rows]];
      cbn; try discriminate.
    destruct (RouteAuth.token_differs _ _) eqn:Hd.
    + intros _. exists u. split; [reflexivity|].
      now apply token_differs_true.
    + cbn. discriminate.
Qed.

Lemma select_by_email_users (email : string) (s s' : state) :
  users s' = users s ->
  RepoUsers.select_by_email email s' = RepoUsers.select_by_email email s.
Proof. unfold RepoUsers.select_by_email. now intros ->. Qed.

Lemma select_by_email_app (email : string) (s s' : state)
  (us : list User.t) :
  users s' = users s ++ us ->
  RepoUsers.select_by_email email s'
  = RepoUsers.select_by_email email s
    ++ filter (fun u => String.eqb (User.email u) email) us.
Proof.
  unfold RepoUsers.select_by_email. intros ->. apply filter_app.
Qed.

Lemma signup_fresh (base_url : string) (body : UserValidationSchema)
  (s : state) :
  RepoUsers.select_by_email (body_email body) s = [] ->
  let u :=
    User.mk (next_user_id s) (body_username body) (body_email body)
            (get_password_hash svc (body_hash body))
            (gravatar_get_image svc (body_email body)) None false in
  RouteAuth.signup svc base_url body s
  = (Return u,
     mkstate (users s ++ [u]) (contacts s) (next_user_id s + 1)
             (next_contact_id s)
             (tasks s ++ [mkEmailTask (body_email body)
                                      (body_username body) base_url])).
Proof.
  intros Hsel u. unfold RouteAuth.signup. unfold bind at 1.
  rewrite get_user_by_email_state, Hsel. reflexivity.
Qed.

Lemma signup_existing (base_url : string) (body : UserValidationSchema)
  (s : state) (u : User.t) :
  RepoUsers.select_by_email (body_email body) s = [u] ->
  RouteAuth.signup svc base_url body s
  = (HTTPException 409 "Account already exists", s).
Proof.
  intros Hsel. unfold RouteAuth.signup. unfold bind at 1.
  rewrite get_user_by_email_state, Hsel. reflexivity.
Qed.

Lemma select_by_email_nil (email : string) (s : state) :
  RepoUsers.select_by_email email s = []
  <-> ~ In email (map User.email (users s)).
Proof.
  unfold RepoUsers.select_by_email.
  induction (users s) as [|u us IH]; cbn; [tauto|].
  destruct (String.eqb_spec (User.email u) email) as [E|E].
  - split; [discriminate|]. intros H. exfalso. apply H. now left.
  - rewrite IH. tauto.
Qed.

(** The unique constraint leaves at most one row per email, which is what
    the lookup by email relies on. *)
Lemma emails_unique_select (email : string) (s : state) :
  emails_unique s ->
  (List.length (RepoUsers.select_by_email email s) <= 1)%nat.
Proof.
  unfold emails_unique, RepoUsers.select_by_email.
  induction (users s) as [|u us IH]; cbn; intros Hnd; [lia|].
  inversion Hnd as [|x l Hnotin Hnd']; subst.
  destruct (String.eqb_spec (User.email u) email) as [E|E].
  - cbn. rewrite filter_none; [cbn; lia|].
    intros r Hr. apply String.eqb_neq. intros E'. apply Hnotin.
    rewrite E, <- E'. now apply in_map.
  - now apply IH.
Qed.

Lemma emails_unique_flush (uid : Z) (f : User.t -> User.t) (s : state) :
  (forall u, User.email (f u) = User.email u) ->
  emails_unique s -> emails_unique (RepoUsers.flush_user uid f s).
Proof.
  unfold emails_unique, RepoUsers.flush_user. cbn. intros Hf Hnd.
  rewrite map_map.
  rewrite (map_ext _ User.email); [exact Hnd|].
  intros u. destruct (User.id u =? uid); auto.
Qed.

(** Every request of the auth router keeps emails unique. *)
Lemma emails_unique_serve (r : RouteAuth.AuthRequest) (s : state) :
  emails_unique s -> emails_unique (RouteAuth.serve svc r s).
Proof.
  intros Hu.
  destruct r as [base_url body | now body | now token | now token];
    unfold RouteAuth.serve, RouteAuth.signup, RouteAuth.login,
      RouteAuth.refresh_token, RouteAuth.confirmed_email,
      RepoUsers.confirmed_email, RepoUsers.create_user,
      RepoUsers.update_token, RepoUsers.get_user_by_email,
      bind, lift, get, put, raise, raise_http, ret.
  - destruct (RepoUsers.select_by_email _ s) as [|u [|u' rows]] eqn:Hsel;
      cbn; try exact Hu.
    unfold emails_unique. cbn. rewrite map_app. cbn.
    apply NoDup_snoc; [exact Hu|]. now apply select_by_email_nil.
  - destruct (RepoUsers.select_by_email _ s) as [|u [|u' rows]]; cbn;
      try exact Hu.
    destruct (User.confirmed u); cbn; try exact Hu.
    destruct (verify_password svc _ _); cbn; try exact Hu.
    now apply emails_unique_flush.
  - destruct (decode_refresh_token svc now token) as [email| |]; cbn;
      try exact Hu.
    destruct (RepoUsers.select_by_email _ s) as [|u [|u' rows]]; cbn;
      try exact Hu.
    destruct (RouteAuth.token_differs _ _); cbn;
      now apply emails_unique_flush.
  - destruct (get_email_from_token svc now token) as [email| |]; cbn;
      try exact Hu.
    destruct (RepoUsers.select_by_email _ s) as [|u [|u' rows]] eqn:Hsel;
      cbn; try exact Hu.
    destruct (User.confirmed u); cbn; try exact Hu.
    rewrite Hsel. cbn. now apply emails_unique_flush.
Qed.

(** C6: two signups with the same email, starting from a table with at
    most one row for that email: the second answers 409 "Account already
    exists" and leaves the state as the first left it, so exactly one row
    with that email exists afterwards; when the first signup created the
    row, that row is the one found afterwards, exactly as created. *)
Theorem signup_twice_conflict (base1 base2 : string)
  (body1 body2 : UserValidationSchema) (s : state) :
  body_email body2 = body_email body1 ->
  (List.length (RepoUsers.select_by_email (body_email body1) s) <= 1)%nat ->
  let r1 := RouteAuth.signup svc base1 body1 s in
  RouteAuth.signup svc base2 body2 (snd r1)
  = (HTTPException 409 "Account already exists", snd r1)
  /\ List.length (RepoUsers.select_by_email (body_email body1) (snd r1)) = 1%nat
  /\ (RepoUsers.select_by_email (body_email body1) s = [] ->
      exists u1,
        fst r1 = Return u1
        /\ User.email u1 = body_email body1
        /\ User.username u1 = body_username body1
        /\ users (snd r1) = users s ++ [u1]
        /\ RepoUsers.select_by_email (body_email body1) (snd r1) = [u1]).
Proof.
  intros He Hlen r1.
  destruct (RepoUsers.select_by_email (body_email body1) s)
    as [|u [|u' rows]] eqn:Hsel.
  - pose proof (signup_fresh base1 body1 s Hsel) as H1. cbn zeta in H1.
    set (u1 := User.mk _ _ _ _ _ _ _) in H1.
    assert (Hsel1 : RepoUsers.select_by_email (body_email body1) (snd r1)
                    = [u1]).
    { unfold r1. rewrite H1. cbn [snd].
      rewrite (select_by_email_app _ s _ [u1]) by reflexivity.
      rewrite Hsel. cbn. now rewrite String.eqb_refl. }
    split; [|split].
    + apply signup_existing with (u := u1). now rewrite He.
    + now rewrite Hsel1.
    + intros _. exists u1. unfold r1 at 1 2. rewrite H1. cbn [fst snd users].
      repeat split; try reflexivity. exact Hsel1.
  - pose proof (signup_existing base1 body1 s u Hsel) as H1.
    unfold r1. rewrite H1. cbn [snd].
    split; [|split].
    + apply signup_existing with (u := u). now rewrite He.
    + now rewrite Hsel.
    + discriminate.
  - cbn in Hlen. lia.
Qed.

Lemma confirmed_kept_refl (s : state) : confirmed_kept s s.
Proof. intros u Hin Hc. exists u. auto. Qed.

Lemma confirmed_kept_flush (uid : Z) (f : User.t -> User.t) (s : state) :
  (forall u, User.id (f u) = User.id u) ->
  (forall u, User.email (f u) = User.email u) ->
  (forall u, User.confirmed u = true -> User.confirmed (f u) = true) ->
  confirmed_kept s (RepoUsers.flush_user uid f s).
Proof.
  intros Hid Hem Hcf u Hin Hc.
  exists (if User.id u =? uid then f u else u). split.
  - unfold RepoUsers.flush_user. cbn.
    now apply (in_map (fun u => if User.id u =? uid then f u else u)).
  - destruct (User.id u =? uid); auto.
Qed.

Lemma confirmed_kept_serve (r : RouteAuth.AuthRequest) (s : state) :
  confirmed_kept s (RouteAuth.serve svc r s).
Proof.
  destruct r as [base_url body | now body | now token | now token];
    unfold RouteAuth.serve, RouteAuth.signup, RouteAuth.login,
      RouteAuth.refresh_token, RouteAuth.confirmed_email,
      RepoUsers.confirmed_email, RepoUsers.create_user,
      RepoUsers.update_token, RepoUsers.get_user_by_email,
      bind, lift, get, put, raise, raise_http, ret.
  - destruct (RepoUsers.select_by_email _ s) as [|u [|u' rows]]; cbn;
      try apply confirmed_kept_refl.
    intros u Hin Hc. exists u. cbn. rewrite in_app_iff. auto.
  - destruct (RepoUsers.select_by_email _ s) as [|u [|u' rows]]; cbn;
      try apply confirmed_kept_refl.
    destruct (User.confirmed u); cbn; try apply confirmed_kept_refl.
    destruct (verify_password svc _ _); cbn; try apply confirmed_kept_refl.
    now apply confirmed_kept_flush.
  - destruct (decode_refresh_token svc now token) as [email| |]; cbn;
      try apply confirmed_kept_refl.
    destruct (RepoUsers.select_by_email _ s) as [|u [|u' rows]]; cbn;
      try apply confirmed_kept_refl.
    destruct (RouteAuth.token_differs _ _); cbn;
      now apply confirmed_kept_flush.
  - destruct (get_email_from_token svc now token) as [email| |]; cbn;
      try apply confirmed_kept_refl.
    destruct (RepoUsers.select_by_email _ s) as [|u [|u' rows]] eqn:Hsel;
      cbn; try apply confirmed_kept_refl.
    destruct (User.confirmed u); cbn; try apply confirmed_kept_refl.
    rewrite Hsel. cbn. now apply confirmed_kept_flush.
Qed.

Lemma confirmed_kept_update_avatar_url (email : string)
  (url : option string) (s : state) :
  confirmed_kept s (snd (RepoUsers.update_avatar_url email url s)).
Proof.
  unfold RepoUsers.update_avatar_url, RepoUsers.get_user_by_email,
    bind, lift, get, put, raise, ret.
  destruct (RepoUsers.select_by_email _ s) as [|u [|u' rows]]; cbn;
    try apply confirmed_kept_refl.
  now apply confirmed_kept_flush.
Qed.

(** C8: confirming an already confirmed user returns "Your email is
    already confirmed" (a normal return) and changes nothing; confirming an
    unconfirmed existing user sets the flag, returns "Email confirmed", and
    a second confirmation is then the no-op; the two messages differ; and
    neither a request served by the auth router nor an avatar update ever
    takes a confirmed row back to unconfirmed. *)
Theorem confirmed_email_idempotent (now : Z) (token email : string)
  (u : User.t) (s : state) :
  get_email_from_token svc now token = Return email ->
  RepoUsers.get_user_by_email email s = (Return (Some u), s) ->
  (User.confirmed u = true ->
   RouteAuth.confirmed_email svc now token s
   = (Return "Your email is already confirmed", s))
  /\ (User.confirmed u = false ->
      let s' :=
        RepoUsers.flush_user (User.id u)
          (fun r => User.set_confirmed r true) s in
      RouteAuth.confirmed_email svc now token s
      = (Return "Email confirmed", s')
      /\ RepoUsers.get_user_by_email email s'
         = (Return (Some (User.set_confirmed u true)), s')
      /\ RouteAuth.confirmed_email svc now token s'
         = (Return "Your email is already confirmed", s'))
  /\ "Your email is already confirmed" <> "Email confirmed"
  /\ (forall r s0, confirmed_kept s0 (RouteAuth.serve svc r s0))
  /\ (forall e url s0,
        confirmed_kept s0 (snd (RepoUsers.update_avatar_url e url s0))).
Proof.
  intros Htok Hget.
  assert (Hrun : forall s1 u1,
             RepoUsers.get_user_by_email email s1 = (Return (Some u1), s1) ->
             User.confirmed u1 = true ->
             RouteAuth.confirmed_email svc now token s1
             = (Return "Your email is already confirmed", s1)).
  { intros s1 u1 H1 Hc. unfold RouteAuth.confirmed_email, lift.
    unfold bind at 1. rewrite Htok. unfold bind at 1.
    now rewrite H1, Hc. }
  split; [|split; [|split; [|split]]].
  - now apply Hrun.
  - intros Hc s'.
    assert (Hget' : RepoUsers.get_user_by_email email s'
                    = (Return (Some (User.set_confirmed u true)), s')).
    { apply get_user_by_email_some in Hget. destruct Hget as [Hsel _].
      apply get_user_by_email_some. split; [|reflexivity].
      unfold s'. rewrite select_by_email_flush by reflexivity.
      rewrite Hsel. cbn. now rewrite Z.eqb_refl. }
    split; [|split].
    + unfold RouteAuth.confirmed_email, lift.
      unfold bind at 1. rewrite Htok. unfold bind at 1.
      rewrite Hget, Hc. cbn [negb].
      unfold RepoUsers.confirmed_email. unfold bind at 1. unfold bind at 1.
      now rewrite Hget.
    + exact Hget'.
    + now apply Hrun with (u1 := User.set_confirmed u true).
  - discriminate.
  - intros r s0. apply confirmed_kept_serve.
  - intros e url s0. apply confirmed_kept_update_avatar_url.
Qed.

End AuthFlow.

(** ** Contact store and contact routes *)
Section ContactFlow.

Local Open Scope string_scope.
Local Open Scope list_scope.
Local Open Scope Z_scope.

Lemma read_contact_state (contact_id user_id : Z) (s : state) :
  RepoContacts.read_contact contact_id user_id s
  = (scalar_one_or_none (RepoContacts.select_contact contact_id user_id s),
     s).
Proof. reflexivity. Qed.

Lemma same_key_same_row (cs : list Contact.t) (a b : Contact.t) :
  NoDup (map Contact.id cs) -> In a cs -> In b cs ->
  Contact.id a = Contact.id b -> a = b.
Proof.
  induction cs as [|c cs IH]; cbn; intros Hnd Ha Hb Hid; [contradiction|].
  inversion Hnd as [|x l Hnotin Hnd']; subst.
  destruct Ha as [->|Ha], Hb as [->|Hb]; auto.
  - exfalso. apply Hnotin. rewrite Hid. now apply in_map.
  - exfalso. apply Hnotin. rewrite <- Hid. now apply in_map.
Qed.

(** With a primary key, the select by id and owner is the row itself when
    the owner matches and empty otherwise. *)
Lemma select_contact_keyed (s : state) (c : Contact.t) (user_id : Z) :
  NoDup (map Contact.id (contacts s)) -> In c (contacts s) ->
  RepoContacts.select_contact (Contact.id c) user_id s
  = if Contact.user_id c =? user_id then [c] else [].
Proof.
  unfold RepoContacts.select_contact.
  induction (contacts s) as [|r rs IH]; cbn; intros Hnd Hin; [contradiction|].
  inversion Hnd as [|x l Hnotin Hnd']; subst.
  destruct Hin as [->|Hin].
  - rewrite Z.eqb_refl. cbn.
    assert (Hrest : filter (fun c0 => (Contact.id c0 =? Contact.id c)
                                      && (Contact.user_id c0 =? user_id)) rs
                    = []).
    { apply filter_none. intros r Hr.
      destruct (Contact.id r =? Contact.id c) eqn:E; [|reflexivity].
      exfalso. apply Hnotin. apply Z.eqb_eq in E. rewrite <- E.
      now apply in_map. }
    rewrite Hrest. now destruct (Contact.user_id c =? user_id).
  - destruct (Contact.id r =? Contact.id c) eqn:E.
    + exfalso. apply Hnotin. apply Z.eqb_eq in E. rewrite E.
      now apply in_map.
    + cbn. now apply IH.
Qed.

(** C4: a contact owned by someone else is invisible to the caller and
    untouched: with that contact's own id and the caller's user id, the
    store's read, update and delete all return none and leave the whole
    state as it was. *)
Theorem foreign_contact_untouched (s : state) (c : Contact.t) (caller : Z)
  (body : ContactValidationSchemaResponse) :
  NoDup (map Contact.id (contacts s)) ->
  In c (contacts s) ->
  Contact.user_id c <> caller ->
  RepoContacts.read_contact (Contact.id c) caller s = (Return None, s)
  /\ RepoContacts.update_contact body (Contact.id c) caller s
     = (Return None, s)
  /\ RepoContacts.delete_contact (Contact.id c) caller s = (Return None, s).
Proof.
  intros Hnd Hin Hown.
  assert (Hread : RepoContacts.read_contact (Contact.id c) caller s
                  = (Return None, s)).
  { rewrite read_contact_state, select_contact_keyed by assumption.
    apply Z.eqb_neq in Hown. now rewrite Hown. }
  split; [exact Hread|split].
  - unfold RepoContacts.update_contact. unfold bind at 1. now rewrite Hread.
  - unfold RepoContacts.delete_contact. unfold bind at 1. now rewrite Hread.
Qed.

Lemma filter_by_id_keyed (cs : list Contact.t) (c : Contact.t) :
  NoDup (map Contact.id cs) -> In c cs ->
  filter (fun r => Contact.id r =? Contact.id c) cs = [c].
Proof.
  induction cs as [|r rs IH]; cbn; intros Hnd Hin; [contradiction|].
  inversion Hnd as [|x l Hnotin Hnd']; subst.
  destruct Hin as [->|Hin].
  - rewrite Z.eqb_refl. f_equal. apply filter_none. intros r Hr.
    apply Z.eqb_neq. intros E. apply Hnotin. rewrite <- E. now apply in_map.
  - destruct (Contact.id r =? Contact.id c) eqn:E.
    + exfalso. apply Hnotin. apply Z.eqb_eq in E. rewrite E.
      now apply in_map.
    + now apply IH.
Qed.

Lemma filter_by_id_replace (cs : list Contact.t) (c c' : Contact.t) :
  Contact.id c' = Contact.id c ->
  filter (fun r => Contact.id r =? Contact.id c)
         (map (fun r => if Contact.id r =? Contact.id c then c' else r) cs)
  = map (fun _ => c') (filter (fun r => Contact.id r =? Contact.id c) cs).
Proof.
  intros Hid. induction cs as [|r rs IH]; cbn; [reflexivity|].
  destruct (Contact.id r =? Contact.id c) eqn:E; cbn.
  - rewrite Hid, Z.eqb_refl. now f_equal.
  - now rewrite E.
Qed.

(** What [update_contact] does to a contact it finds: [name], [email] and
    [rest] of the stored row take the body's values; [last_name],
    [phone_number] and [birth_date] keep their old values, the body's
    values ending up in the object's unmapped attributes [lastName],
    [phoneNumber] and [birthDate]. *)
Lemma update_contact_found (s : state) (c : Contact.t)
  (body : ContactValidationSchemaResponse) :
  NoDup (map Contact.id (contacts s)) ->
  In c (contacts s) ->
  let b := resp_fields body in
  let c' :=
    Contact.mk (Contact.id c) (body_name b) (Contact.last_name c)
               (body_contact_email b) (Contact.phone_number c)
               (Contact.birth_date c) (body_rest b) (Contact.user_id c) in
  RepoContacts.update_contact body (Contact.id c) (Contact.user_id c) s
  = (Return (Some (mkinstance c'
                     [("birthDate", VDate (body_birth_date b));
                      ("phoneNumber", VStr (body_phone_number b));
                      ("lastName", VStr (body_last_name b))])),
     with_contacts s
       (map (fun r => if Contact.id r =? Contact.id c then c' else r)
            (contacts s))).
Proof.
  intros Hnd Hin b c'.
  unfold RepoContacts.update_contact. unfold bind at 1.
  rewrite read_contact_state, select_contact_keyed by assumption.
  rewrite Z.eqb_refl. cbn [scalar_one_or_none].
  unfold bind, get, put, ret.
  unfold RepoContacts.flush_contact, RepoContacts.refresh_contact.
  cbn. fold b. fold c'.
  rewrite (filter_by_id_replace (contacts s) c c') by reflexivity.
  rewrite filter_by_id_keyed by assumption. reflexivity.
Qed.

(** C3: evaluated on a table holding one contact, with a body that changes
    all six fields: the update finds the contact and persists the new name,
    email and notes, while last name, phone number and birth date of the
    stored row stay as they were. *)
Theorem update_contact_overwrites_only_three_fields :
  let before :=
    Contact.mk 1 "Ann" "Lee" "ann@example.com" "111"
               (Calendar.mkdate 1990 5 17) "friend" 1 in
  let body :=
    mkContactResponse 1
      (mkContactBody "Anna" "Smith" "anna@example.com" "222"
                     (Calendar.mkdate 1991 6 18) "colleague") in
  let after :=
    Contact.mk 1 "Anna" "Lee" "anna@example.com" "111"
               (Calendar.mkdate 1990 5 17) "colleague" 1 in
  let s := mkstate [] [before] 1 2 [] in
  exists obj,
    RepoContacts.update_contact body 1 1 s
    = (Return (Some obj), mkstate [] [after] 1 2 [])
    /\ row obj = after
    /\ Contact.last_name after <> body_last_name (resp_fields body)
    /\ Contact.phone_number after <> body_phone_number (resp_fields body)
    /\ Contact.birth_date after <> body_birth_date (resp_fields body).
Proof.
  cbv zeta.
  exists (mkinstance
            (Contact.mk 1 "Anna" "Lee" "anna@example.com" "111"
                        (Calendar.mkdate 1990 5 17) "colleague" 1)
            [("birthDate", VDate (Calendar.mkdate 1991 6 18));
             ("phoneNumber", VStr "222");
             ("lastName", VStr "Smith")]).
  split; [vm_compute; reflexivity|].
  cbn. repeat split; discriminate.
Qed.



(** C9: with the id sequence ahead of every id in the table, [add_contact]
    returns a contact carrying the generated id, and [read_contact] on that
    id with the same owner returns that very contact, whose six fields are
    the body's. *)
Theorem add_contact_then_read_contact (body : ContactValidationSchema)
  (owner : Z) (s : state) :
  (forall c, In c (contacts s) -> Contact.id c < next_contact_id s) ->
  exists c s1,
    RepoContacts.add_contact body owner s = (Return c, s1)
    /\ Contact.id c = next_contact_id s
    /\ RepoContacts.read_contact (Contact.id c) owner s1
       = (Return (Some c), s1)
    /\ Contact.name c = body_name body
    /\ Contact.last_name c = body_last_name body
    /\ Contact.email c = body_contact_email body
    /\ Contact.phone_number c = body_phone_number body
    /\ Contact.birth_date c = body_birth_date body
    /\ Contact.rest c = body_rest body
    /\ Contact.user_id c = owner.
Proof.
  intros Hseq.
  unfold RepoContacts.add_contact, bind, get, put, ret. cbn beta iota zeta.
  eexists. eexists. split; [reflexivity|].
  split; [reflexivity|]. split; [|repeat split].
  rewrite read_contact_state. unfold RepoContacts.select_contact.
  cbn [contacts Contact.id]. rewrite filter_app. cbn.
  rewrite !Z.eqb_refl. cbn.
  rewrite filter_none; [reflexivity|].
  intros r Hr. apply Hseq in Hr.
  apply andb_false_iff. left. apply Z.eqb_neq. lia.
Qed.

Lemma in_firstn {A : Type} (n : nat) (l : list A) (x : A) :
  In x (firstn n l) -> In x l.
Proof.
  revert l. induction n as [|n IH]; intros [|a l]; cbn; try tauto.
  intros [H|H]; [now left|right; now apply IH].
Qed.

Lemma in_skipn {A : Type} (n : nat) (l : list A) (x : A) :
  In x (skipn n l) -> In x l.
Proof.
  revert l. induction n as [|n IH]; intros [|a l]; cbn; try tauto.
  intros H. right. now apply IH.
Qed.

(** Whatever [read_all_contacts] returns is a row of the table that passes
    the WHERE clause, and the state is not touched. *)
Lemma read_all_contacts_sound (today : Calendar.date) (limit offset : Z)
  (name last_name email : option string) (find_BD : bool) (user_id : Z)
  (s s' : state) (rows : list Contact.t) :
  RepoContacts.read_all_contacts today limit offset name last_name email
    find_BD user_id s = (Return rows, s') ->
  s' = s
  /\ forall c, In c rows ->
       In c (contacts s)
       /\ RepoContacts.where_clause today name last_name email find_BD
            user_id c = true.
Proof.
  unfold RepoContacts.read_all_contacts, bind, get, raise, ret.
  destruct ((limit <? 0) || (offset <? 0)); [discriminate|].
  intros H. inversion H; subst. split; [reflexivity|].
  intros c Hin. apply in_firstn, in_skipn, filter_In in Hin. exact Hin.
Qed.

(** With no offset and a limit that covers the table, it returns every row
    that passes the WHERE clause. *)
Lemma read_all_contacts_unpaged (today : Calendar.date) (limit : Z)
  (name last_name email : option string) (find_BD : bool) (user_id : Z)
  (s : state) :
  Z.of_nat (List.length (contacts s)) <= limit ->
  RepoContacts.read_all_contacts today limit 0 name last_name email
    find_BD user_id s
  = (Return (filter (RepoContacts.where_clause today name last_name email
                       find_BD user_id)
                    (contacts s)),
     s).
Proof.
  intros Hlim.
  unfold RepoContacts.read_all_contacts, bind, get, raise, ret.
  destruct (Z.ltb_spec limit 0); [lia|]. cbn [orb Z.ltb Z.compare].
  cbn [Z.to_nat skipn]. rewrite firstn_all2; [reflexivity|].
  pose proof (filter_length_le
                (RepoContacts.where_clause today name last_name email
                   find_BD user_id)
                (contacts s)).
  lia.
Qed.

(** The primary key survives every write of the contact store. *)
Lemma contacts_keyed_add (body : ContactValidationSchema) (owner : Z)
  (s : state) :
  contacts_keyed s ->
  contacts_keyed (snd (RepoContacts.add_contact body owner s)).
Proof.
  intros [Hnd Hseq]. cbn. split; cbn.
  - rewrite map_app. cbn. apply NoDup_snoc; [assumption|].
    intros Hin. apply in_map_iff in Hin. destruct Hin as [r [Hid Hr]].
    apply Hseq in Hr. lia.
  - intros c Hin. apply in_app_iff in Hin. destruct Hin as [Hin|[<-|[]]].
    + apply Hseq in Hin. lia.
    + cbn. lia.
Qed.

Lemma contacts_keyed_delete (contact_id user_id : Z) (s : state) :
  contacts_keyed s ->
  contacts_keyed (snd (RepoContacts.delete_contact contact_id user_id s)).
Proof.
  intros [Hnd Hseq]. unfold RepoContacts.delete_contact. unfold bind at 1.
  rewrite read_contact_state.
  destruct (RepoContacts.select_contact contact_id user_id s)
    as [|c [|c' rows]]; cbn; try (split; assumption).
  split; cbn.
  - clear Hseq. induction (contacts s) as [|r rs IH]; cbn; [constructor|].
    inversion Hnd as [|x l Hnotin Hnd']; subst.
    destruct (negb (Contact.id r =? Contact.id c)); cbn; auto.
    constructor; auto.
    intros Hin. apply Hnotin. apply in_map_iff in Hin.
    destruct Hin as [r' [Hid Hr']]. apply filter_In in Hr'.
    rewrite <- Hid. apply in_map. tauto.
  - intros r Hr. apply filter_In in Hr. apply Hseq. tauto.
Qed.

Lemma contacts_keyed_update (body : ContactValidationSchemaResponse)
  (contact_id user_id : Z) (s : state) :
  contacts_keyed s ->
  contacts_keyed
    (snd (RepoContacts.update_contact body contact_id user_id s)).
Proof.
  intros [Hnd Hseq]. unfold RepoContacts.update_contact. unfold bind at 1.
  rewrite read_contact_state.
  destruct (RepoContacts.select_contact contact_id user_id s)
    as [|c [|c' rows]] eqn:Hsel; cbn; try (split; assumption).
  assert (Hin : In c (contacts s)).
  { assert (H : In c (RepoContacts.select_contact contact_id user_id s))
      by (rewrite Hsel; now left).
    unfold RepoContacts.select_contact in H. apply filter_In in H. tauto. }
  assert (Hids : forall cs,
             map Contact.id
               (map (fun r => if Contact.id r =? Contact.id c
                              then Contact.mk (Contact.id c)
                                     (body_name (resp_fields body))
                                     (Contact.last_name c)
                                     (body_contact_email (resp_fields body))
                                     (Contact.phone_number c)
                                     (Contact.birth_date c)
                                     (body_rest (resp_fields body))
                                     (Contact.user_id c)
                              else r) cs)
             = map Contact.id cs).
  { intros cs. rewrite map_map. apply map_ext. intros r.
    destruct (Z.eqb_spec (Contact.id r) (Contact.id c)) as [E|E]; cbn; auto. }
  split; cbn.
  - now rewrite Hids.
  - intros r Hr. apply in_map_iff in Hr. destruct Hr as [r0 [Hr0 Hin0]].
    destruct (Contact.id r0 =? Contact.id c); subst r.
    + cbn. now apply Hseq.
    + now apply Hseq.
Qed.

End ContactFlow.

(** ** The upcoming-birthday filter *)
Section BirthdayFilter.

Import Calendar Birthday CalendarCases.
Local Open Scope Z_scope.

Ltac month_cases m :=
  let H := fresh "Hm" in
  assert (H : m = 1 \/ m = 2 \/ m = 3 \/ m = 4 \/ m = 5 \/ m = 6 \/ m = 7
              \/ m = 8 \/ m = 9 \/ m = 10 \/ m = 11 \/ m = 12) by lia;
  destruct H as [H|[H|[H|[H|[H|[H|[H|[H|[H|[H|[H|H]]]]]]]]]]]; subst m.

Ltac bool_to_prop :=
  repeat match goal with
  | H : (_ && _) = true |- _ => apply andb_true_iff in H; destruct H
  | H : (_ || _) = false |- _ => apply orb_false_iff in H; destruct H
  | H : (_ <=? _) = true |- _ => apply Z.leb_le in H
  | H : (_ <=? _) = false |- _ => apply Z.leb_gt in H
  | H : (_ <? _) = true |- _ => apply Z.ltb_lt in H
  | H : (_ <? _) = false |- _ => apply Z.ltb_ge in H
  | H : (_ =? _) = true |- _ => apply Z.eqb_eq in H
  | H : (_ =? _) = false |- _ => apply Z.eqb_neq in H
  | H : negb _ = true |- _ => apply negb_true_iff in H
  | H : negb _ = false |- _ => apply negb_false_iff in H
  end.

Lemma day_tab_bounds (leap : bool) (m : Z) :
  1 <= m <= 12 -> 28 <= day_tab leap (m - 1) <= 31.
Proof.
  intros H. month_cases m; destruct leap; vm_compute; split; discriminate.
Qed.

Lemma valid_date_iff (d : date) :
  valid_date d = true
  <-> 1 <= month d <= 12
      /\ 1 <= day d <= days_in_month (year d) (month d).
Proof.
  unfold valid_date. rewrite !andb_true_iff, !Z.leb_le. tauto.
Qed.

Lemma borrow_days_nonneg (fuel : nat) (dim mday mon : Z) :
  0 <= mday -> borrow_days fuel dim mday mon = (mday, mon).
Proof.
  intros H. destruct fuel; cbn; [reflexivity|].
  destruct (Z.ltb_spec mday 0); [lia|reflexivity].
Qed.

Lemma borrow_days_once (dim mday mon : Z) :
  mday < 0 -> 0 <= mday + dim ->
  borrow_days (Z.to_nat (- mday)) dim mday mon = (mday + dim, mon - 1).
Proof.
  intros Hneg Hpos.
  destruct (Z.to_nat (- mday)) as [|k] eqn:E; [lia|]. cbn.
  destruct (Z.ltb_spec mday 0); [|lia]. now apply borrow_days_nonneg.
Qed.

Lemma borrow_months_nonneg (fuel : nat) (mon yr : Z) :
  0 <= mon -> borrow_months fuel mon yr = (mon, yr).
Proof.
  intros H. destruct fuel; cbn; [reflexivity|].
  destruct (Z.ltb_spec mon 0); [lia|reflexivity].
Qed.

Lemma borrow_months_once (mon yr : Z) :
  mon < 0 -> 0 <= mon + 12 ->
  borrow_months (Z.to_nat (- mon)) mon yr = (mon + 12, yr - 1).
Proof.
  intros Hneg Hpos.
  destruct (Z.to_nat (- mon)) as [|k] eqn:E; [lia|]. cbn.
  destruct (Z.ltb_spec mon 0); [|lia]. now apply borrow_months_nonneg.
Qed.

Lemma quot_years (yr mon : Z) :
  0 <= yr -> 0 <= mon < 12 -> Z.quot (yr * 12 + mon) 12 = yr.
Proof.
  intros Hy Hm. rewrite Z.quot_div_nonneg by lia.
  symmetry. apply Z.div_unique with (r := mon); lia.
Qed.

(** The year field of [age] for a date that is not in the future: the
    difference of the years, less one when today's month and day come
    before the date's. *)
Lemma age_years_past (today b : date) :
  valid_date today = true -> valid_date b = true ->
  date_ltb today b = false ->
  date_part_year (age today b)
  = year today - year b - (if md_ltb (md today) (md b) then 1 else 0).
Proof.
  destruct today as [yt mt dt], b as [yb mb db].
  intros Ht Hb Hflip.
  apply valid_date_iff in Ht. apply valid_date_iff in Hb.
  cbn [year month day] in Ht, Hb. unfold days_in_month in Ht, Hb.
  unfold age, timestamp_age, date_part_year, md_ltb, md.
  rewrite Hflip. unfold date_ltb in Hflip. cbn [year month day fst snd] in *.
  pose proof (day_tab_bounds (isleap yb) mb (proj1 Hb)) as Hdim.
  set (dim := day_tab (isleap yb) (mb - 1)) in *.
  destruct (Z.ltb_spec yt yb); [discriminate|].
  destruct (Z.eqb_spec yt yb);
    destruct (Z.ltb_spec mt mb); destruct (Z.eqb_spec mt mb);
    destruct (Z.ltb_spec dt db); cbn in Hflip; try discriminate;
    cbn [orb andb]; try lia.
  all: try (rewrite (borrow_days_once dim (dt - db) (mt - mb)) by lia).
  all: try (rewrite (borrow_days_nonneg _ dim (dt - db) (mt - mb)) by lia).
  all: try (rewrite (borrow_months_once (mt - mb - 1)) by lia).
  all: try (rewrite (borrow_months_once (mt - mb)) by lia).
  all: try (rewrite borrow_months_nonneg by lia).
  all: cbn [imonths]; rewrite quot_years; lia.
Qed.

Lemma date_ltb_iff (a b : date) :
  date_ltb a b = true
  <-> year a < year b
      \/ (year a = year b
          /\ (month a < month b \/ (month a = month b /\ day a < day b))).
Proof.
  unfold date_ltb.
  rewrite !orb_true_iff, !andb_true_iff, !orb_true_iff, !andb_true_iff,
    !Z.ltb_lt, !Z.eqb_eq.
  tauto.
Qed.

Lemma date_ltb_false_iff (a b : date) :
  date_ltb a b = false
  <-> ~ (year a < year b
         \/ (year a = year b
             /\ (month a < month b \/ (month a = month b /\ day a < day b)))).
Proof.
  rewrite <- date_ltb_iff. destruct (date_ltb a b); split; intros H;
    try reflexivity; try discriminate; try (intros H'; discriminate).
  exfalso. now apply H.
Qed.

Lemma date_leb_trans (a b c : date) :
  date_ltb b a = false -> date_ltb c b = false -> date_ltb c a = false.
Proof. rewrite !date_ltb_false_iff. lia. Qed.

Lemma prev_day_before (d : date) : date_ltb d (prev_day d) = false.
Proof.
  apply date_ltb_false_iff. unfold prev_day.
  destruct (Z.ltb_spec 1 (day d)); [cbn; lia|].
  destruct (Z.ltb_spec 1 (month d)); cbn; lia.
Qed.

Lemma iter_prev_day_before (n : nat) (d : date) :
  date_ltb d (iter_days n prev_day d) = false.
Proof.
  revert d. induction n as [|n IH]; intros d; cbn.
  - apply date_ltb_false_iff. lia.
  - apply date_leb_trans with (b := prev_day d).
    + apply IH.
    + apply prev_day_before.
Qed.

Lemma prev_day_valid (d : date) :
  valid_date d = true -> valid_date (prev_day d) = true.
Proof.
  rewrite !valid_date_iff. unfold prev_day, days_in_month.
  intros [Hm Hd].
  destruct (Z.ltb_spec 1 (day d)); [cbn; unfold days_in_month; lia|].
  destruct (Z.ltb_spec 1 (month d)); cbn; unfold days_in_month.
  - pose proof (day_tab_bounds (isleap (year d)) (month d - 1)). lia.
  - change (12 - 1) with 11.
    replace (day_tab (isleap (year d - 1)) 11) with 31
      by (now destruct (isleap (year d - 1))).
    lia.
Qed.

Lemma iter_prev_day_valid (n : nat) (d : date) :
  valid_date d = true -> valid_date (iter_days n prev_day d) = true.
Proof.
  revert d. induction n as [|n IH]; intros d H; cbn; [exact H|].
  apply IH. now apply prev_day_valid.
Qed.

Lemma prev_day_related (k delta : Z) (p q : date) :
  0 <= k < 31 ->
  year p = year q + delta ->
  back_related (k + 1) p q ->
  year (prev_day p) = year (prev_day q) + delta
  /\ back_related k (prev_day p) (prev_day q).
Proof.
  destruct p as [yp mp dp], q as [yq mq dq].
  unfold back_related, prev_day, days_in_month. cbn [year month day].
  intros Hk Hy (Hm & Hd & Hl). subst mp dp yp.
  destruct (Z.ltb_spec 1 dq); cbn [year month day].
  - repeat split; try lia. destruct Hl as [Hl|Hl]; [now left|right; lia].
  - destruct (Z.ltb_spec 1 mq); cbn [year month day].
    + destruct Hl as [Hl|Hl]; [|lia]. rewrite Hl. repeat split; auto.
    + repeat split; try lia.
Qed.

Lemma iter_prev_day_related (n : nat) :
  forall (delta : Z) (p q : date),
    Z.of_nat n <= 31 ->
    year p = year q + delta ->
    back_related (Z.of_nat n) p q ->
    year (iter_days n prev_day p) = year (iter_days n prev_day q) + delta
    /\ month (iter_days n prev_day p) = month (iter_days n prev_day q)
    /\ day (iter_days n prev_day p) = day (iter_days n prev_day q).
Proof.
  induction n as [|n IH]; intros delta p q Hn Hy Hr; cbn [iter_days].
  - destruct Hr as (Hm & Hd & _). auto.
  - destruct (prev_day_related (Z.of_nat n) delta p q) as [Hy' Hr'];
      [lia|assumption| |].
    + replace (Z.of_nat n + 1) with (Z.of_nat (S n)) by lia. exact Hr.
    + apply IH; [lia|assumption|assumption].
Qed.

Lemma next_day_related (k delta : Z) (p q : date) :
  0 <= k < 31 ->
  year p = year q + delta ->
  forth_related (k + 1) p q ->
  year (next_day p) = year (next_day q) + delta
  /\ forth_related k (next_day p) (next_day q).
Proof.
  destruct p as [yp mp dp], q as [yq mq dq].
  unfold forth_related, next_day, days_in_month. cbn [year month day].
  intros Hk Hy (Hm & Hd & Hl). subst mp dp yp.
  destruct Hl as [Hl|[Hm Hd]].
  - rewrite Hl.
    destruct (Z.ltb_spec dq (day_tab (isleap yq) (mq - 1)));
      cbn [year month day].
    + repeat split; auto.
    + destruct (Z.ltb_spec mq 12); cbn [year month day].
      * repeat split; auto.
      * repeat split; try lia.
  - subst mq. cbn [Z.sub Z.add Z.pos_sub Z.opp].
    replace (day_tab (isleap (yq + delta)) 0) with 31
      by (now destruct (isleap (yq + delta))).
    replace (day_tab (isleap yq) 0) with 31 by (now destruct (isleap yq)).
    destruct (Z.ltb_spec dq 31); [|lia]. cbn [year month day].
    repeat split; try lia.
Qed.

Lemma iter_next_day_related (n : nat) :
  forall (delta : Z) (p q : date),
    Z.of_nat n <= 31 ->
    year p = year q + delta ->
    forth_related (Z.of_nat n) p q ->
    year (iter_days n next_day p) = year (iter_days n next_day q) + delta
    /\ month (iter_days n next_day p) = month (iter_days n next_day q)
    /\ day (iter_days n next_day p) = day (iter_days n next_day q).
Proof.
  induction n as [|n IH]; intros delta p q Hn Hy Hr; cbn [iter_days].
  - destruct Hr as (Hm & Hd & _). auto.
  - destruct (next_day_related (Z.of_nat n) delta p q) as [Hy' Hr'];
      [lia|assumption| |].
    + replace (Z.of_nat n + 1) with (Z.of_nat (S n)) by lia. exact Hr.
    + apply IH; [lia|assumption|assumption].
Qed.

Lemma window_check_holds : window_check = true.
Proof. vm_compute. reflexivity. Qed.

Lemma anniversary_check_holds : anniversary_check = true.
Proof. vm_compute. reflexivity. Qed.

Lemma representative_leap (leap : bool) : isleap (representative leap) = leap.
Proof. now destruct leap. Qed.

Lemma valid_date_representative (y m d : Z) :
  valid_date (mkdate y m d) = true ->
  valid_date (mkdate (representative (isleap y)) m d) = true.
Proof.
  unfold valid_date, days_in_month. cbn [year month day].
  now rewrite representative_leap.
Qed.

Lemma in_month_days (m d : Z) :
  1 <= m <= 12 -> 1 <= d <= 31 -> In (m, d) month_days.
Proof.
  intros Hm Hd. unfold month_days. apply in_prod; apply in_map_iff.
  - exists (Z.to_nat m). split; [lia|]. apply in_seq. lia.
  - exists (Z.to_nat d). split; [lia|]. apply in_seq. lia.
Qed.

Lemma valid_date_ranges (y m d : Z) :
  valid_date (mkdate y m d) = true -> 1 <= m <= 12 /\ 1 <= d <= 31.
Proof.
  intros H. apply valid_date_iff in H. cbn [year month day] in H.
  unfold days_in_month in H.
  pose proof (day_tab_bounds (isleap y) m (proj1 H)). lia.
Qed.

Lemma calendar_cases_complete (leap : bool) (m d : Z) :
  valid_date (mkdate (representative leap) m d) = true ->
  In (leap, (m, d)) calendar_cases.
Proof.
  intros H. unfold calendar_cases. apply filter_In. split; [|exact H].
  apply in_prod.
  - destruct leap; cbn; auto.
  - apply valid_date_ranges in H. now apply in_month_days.
Qed.

Lemma window_check_at (leap : bool) (m d mt dt : Z) :
  valid_date (mkdate (representative leap) m d) = true ->
  1 <= mt <= 12 -> 1 <= dt <= 31 ->
  window_holds (m, d) (birth_entry (leap, (m, d))) (mt, dt) = true.
Proof.
  intros Hb Hmt Hdt. pose proof window_check_holds as H.
  unfold window_check in H. rewrite forallb_forall in H.
  specialize (H _ (calendar_cases_complete leap m d Hb)).
  cbv zeta in H. rewrite forallb_forall in H.
  apply (H (mt, dt)). now apply in_month_days.
Qed.

Lemma anniversary_check_at (lb : bool) (m d : Z) (lt : bool) (mt dt : Z) :
  valid_date (mkdate (representative lb) m d) = true ->
  valid_date (mkdate (representative lt) mt dt) = true ->
  anniversary_holds (lb, (m, d)) (birth_entry (lb, (m, d)))
                    (lt, (mt, dt)) (today_entry (lt, (mt, dt))) = true.
Proof.
  intros Hb Ht. pose proof anniversary_check_holds as H.
  unfold anniversary_check in H. cbv zeta in H. rewrite forallb_forall in H.
  specialize (H _ (calendar_cases_complete lt mt dt Ht)).
  rewrite forallb_forall in H.
  apply (H ((lb, (m, d)), birth_entry (lb, (m, d)))).
  apply (in_map (fun c => (c, birth_entry c))).
  now apply calendar_cases_complete.
Qed.

Lemma minus_7_representative (y m d : Z) :
  date_minus_days (mkdate y m d) 7
  = shift_year (y - representative (isleap y))
      (date_minus_days (mkdate (representative (isleap y)) m d) 7).
Proof.
  change (date_minus_days ?x 7) with (iter_days 7 prev_day x).
  destruct (iter_prev_day_related 7 (y - representative (isleap y))
              (mkdate y m d) (mkdate (representative (isleap y)) m d))
    as (Hy & Hm & Hd).
  - cbn. lia.
  - cbn. lia.
  - unfold back_related. cbn [year month day].
    rewrite representative_leap. auto.
  - unfold shift_year.
    destruct (iter_days 7 prev_day (mkdate y m d)) as [y1 m1 d1].
    destruct (iter_days 7 prev_day _) as [y2 m2 d2].
    cbn [year month day] in *. subst. reflexivity.
Qed.

Lemma upcoming_days_representative (y m d : Z) :
  upcoming_days (mkdate y m d) 7
  = upcoming_days (mkdate (representative (isleap y)) m d) 7.
Proof.
  unfold upcoming_days. apply map_ext_in. intros k Hk.
  apply in_seq in Hk. unfold date_plus_days, date_minus_days.
  destruct (Z.leb_spec 0 (- Z.of_nat k)); [lia|].
  replace (Z.to_nat (- - Z.of_nat k)) with k by lia.
  destruct (iter_next_day_related k (y - representative (isleap y))
              (mkdate y m d) (mkdate (representative (isleap y)) m d))
    as (Hy & Hm & Hd).
  - lia.
  - cbn. lia.
  - unfold forth_related. cbn [year month day].
    rewrite representative_leap. auto.
  - unfold md. now rewrite Hm, Hd.
Qed.

(** [has_birthday_next_days] with the look-ahead of 7 that
    [read_all_contacts] passes. *)
Lemma has_birthday_next_days_7 (today col : date) :
  RepoContacts.has_birthday_next_days today col 7
  = (date_part_year (age today (date_minus_days col 7))
     >? date_part_year (age today col)).
Proof.
  unfold RepoContacts.has_birthday_next_days, RepoContacts.age_years_at.
  change (negb (7 =? 0)) with true. change (negb (0 =? 0)) with false.
  reflexivity.
Qed.

Lemma has_birthday_past (today bd : date) :
  valid_date today = true -> valid_date bd = true ->
  date_ltb today bd = false ->
  RepoContacts.has_birthday_next_days today bd 7
  = (0 <? (year bd - year (date_minus_days bd 7))
          + (if md_ltb (md today) (md bd) then 1 else 0)
          - (if md_ltb (md today) (md (date_minus_days bd 7)) then 1 else 0)).
Proof.
  intros Ht Hb Hle.
  unfold RepoContacts.has_birthday_next_days, RepoContacts.age_years_at.
  cbn [Z.eqb negb].
  assert (Hb' : valid_date (date_minus_days bd 7) = true)
    by now apply (iter_prev_day_valid 7).
  assert (Hle' : date_ltb today (date_minus_days bd 7) = false).
  { apply date_leb_trans with (b := bd); [|exact Hle].
    apply (iter_prev_day_before 7). }
  rewrite (age_years_past today bd), (age_years_past today _) by assumption.
  rewrite Z.gtb_ltb.
  destruct (md_ltb (md today) (md bd)),
    (md_ltb (md today) (md (date_minus_days bd 7)));
    match goal with
    | |- (?a <? ?b) = (?c <? ?d) =>
        destruct (Z.ltb_spec a b), (Z.ltb_spec c d)
    end; try reflexivity; lia.
Qed.

Lemma md_shift_year (delta : Z) (x : date) : md (shift_year delta x) = md x.
Proof. reflexivity. Qed.

Lemma year_shift_year (delta : Z) (x : date) :
  year (shift_year delta x) = year x + delta.
Proof. reflexivity. Qed.

Lemma window_holds_true (bmd tmd lo : Z * Z) (back : Z) :
  window_holds bmd (back, lo) tmd = true ->
  (0 <? back + (if md_ltb tmd bmd then 1 else 0)
        - (if md_ltb tmd lo then 1 else 0))
  = in_window lo bmd tmd.
Proof. unfold window_holds. cbn [fst snd]. apply eqb_prop. Qed.

(** The filter on a birth date that is not in the future: today's month
    and day lie in the week that ends just before the birthday, the week
    counted on the birth year's calendar. *)
Lemma has_birthday_window (today bd : date) :
  valid_date today = true -> valid_date bd = true ->
  date_ltb today bd = false ->
  RepoContacts.has_birthday_next_days today bd 7
  = in_window (md (date_minus_days bd 7)) (md bd) (md today).
Proof.
  intros Ht Hb Hle. rewrite has_birthday_past by assumption.
  destruct bd as [y m d], today as [yt mt dt].
  pose proof (valid_date_ranges _ _ _ Ht) as [Hmt Hdt].
  pose proof (window_check_at (isleap y) m d mt dt
                (valid_date_representative y m d Hb) Hmt Hdt) as H.
  unfold birth_entry in H. cbn [fst snd] in H.
  apply window_holds_true in H.
  rewrite (minus_7_representative y m d), md_shift_year, year_shift_year.
  revert H.
  generalize (date_minus_days (mkdate (representative (isleap y)) m d) 7).
  intros q H. unfold md in *. cbn [year month day] in *.
  rewrite <- H. f_equal. lia.
Qed.

Lemma anniversary_holds_true (lb lt : bool) (bmd tmd lo : Z * Z) (back : Z)
  (up : list (Z * Z)) :
  anniversary_holds (lb, bmd) (back, lo) (lt, tmd) up = true ->
  (feb_clear bmd = true \/ lb = lt -> in_window lo bmd tmd = has_md bmd up)
  /\ (md_leb bmd tmd = true -> has_md bmd up = false ->
      in_window lo bmd tmd = false).
Proof.
  unfold anniversary_holds. cbn [fst snd]. intros H.
  apply andb_true_iff in H. destruct H as [H1 H2]. split.
  - intros Hside.
    assert (Hs : feb_clear bmd || Bool.eqb lb lt = true).
    { destruct Hside as [Hf|He]; [now rewrite Hf|].
      rewrite He, eqb_reflx. apply orb_true_r. }
    rewrite Hs in H1. cbn [implb] in H1. now apply eqb_prop in H1.
  - intros Hle Hno. rewrite Hle, Hno in H2. cbn in H2.
    now apply negb_true_iff in H2.
Qed.

Lemma anniversary_facts (today bd : date) :
  valid_date today = true -> valid_date bd = true ->
  (feb_clear (md bd) = true \/ isleap (year bd) = isleap (year today) ->
   in_window (md (date_minus_days bd 7)) (md bd) (md today)
   = anniversary_within today bd 7)
  /\ (md_leb (md bd) (md today) = true ->
      anniversary_within today bd 7 = false ->
      in_window (md (date_minus_days bd 7)) (md bd) (md today) = false).
Proof.
  destruct bd as [y m d], today as [yt mt dt]. intros Ht Hb.
  pose proof (anniversary_check_at (isleap y) m d (isleap yt) mt dt
                (valid_date_representative y m d Hb)
                (valid_date_representative yt mt dt Ht)) as H.
  unfold today_entry in H. cbn [fst snd] in H.
  rewrite <- (upcoming_days_representative yt mt dt) in H.
  unfold anniversary_within.
  rewrite (minus_7_representative y m d), md_shift_year.
  revert H. unfold birth_entry. cbn [fst snd].
  generalize (date_minus_days (mkdate (representative (isleap y)) m d) 7).
  generalize (upcoming_days (mkdate yt mt dt) 7).
  intros up q H. apply anniversary_holds_true in H.
  exact H.
Qed.



End BirthdayFilter.

(** ** The theorems on sample data *)
Section Instances.

Import Calendar Birthday.
Local Open Scope string_scope.
Local Open Scope list_scope.
Local Open Scope Z_scope.

(** The four outcomes of login on the sample table: an unknown email, the
    unconfirmed bob (with his right password), the confirmed alice with a
    wrong password, and alice with the right one. *)
Lemma login_outcomes_witness :
  RouteAuth.login Sample.services 0
    (mkLoginForm "nobody@example.com" "secret") Sample.db
  = (HTTPException 401 "Invalid email", Sample.db)
  /\ RouteAuth.login Sample.services 0
       (mkLoginForm "bob@example.com" "hunter2") Sample.db
     = (HTTPException 401 "Email not confirmed", Sample.db)
  /\ RouteAuth.login Sample.services 0
       (mkLoginForm "alice@example.com" "guess") Sample.db
     = (HTTPException 401 "Invalid password", Sample.db)
  /\ fst (RouteAuth.login Sample.services 0
            (mkLoginForm "alice@example.com" "secret") Sample.db)
     = Return (mkTokens "access:alice@example.com"
                        "refresh:alice@example.com" "bearer").
Proof.
  split; [|split; [|split]].
  - apply (proj1 (login_outcomes Sample.services 0
                    (mkLoginForm "nobody@example.com" "secret") Sample.db)).
    reflexivity.
  - apply (proj1 (proj2 (login_outcomes Sample.services 0
                           (mkLoginForm "bob@example.com" "hunter2")
                           Sample.db)) Sample.bob); reflexivity.
  - apply (proj1 (proj2 (proj2 (login_outcomes Sample.services 0
                                  (mkLoginForm "alice@example.com" "guess")
                                  Sample.db))) Sample.alice); reflexivity.
  - rewrite (proj1 (proj2 (proj2 (proj2 (proj2
               (login_outcomes Sample.services 0
                  (mkLoginForm "alice@example.com" "secret") Sample.db)))))
               Sample.alice); reflexivity.
Defined.

(** A refresh with a token that is not alice's current one: her stored
    token is cleared, and the same token is refused again afterwards. *)
Lemma refresh_token_mismatch_revokes_witness :
  let revoked :=
    mkstate [User.mk 1 "alice" "alice@example.com" "hashed:secret" None
               None true; Sample.bob]
            [Sample.ann; Sample.ben] 3 3 [] in
  decode_refresh_token Sample.services 0 "refresh:alice@example.com"
  = Return "alice@example.com"
  /\ User.refresh_token Sample.alice <> Some "refresh:alice@example.com"
  /\ User.refresh_token Sample.alice = Some "refresh:current"
  /\ RouteAuth.refresh_token Sample.services 0 "refresh:alice@example.com"
       Sample.db
     = (HTTPException 401 "Invalid refresh token", revoked)
  /\ RouteAuth.refresh_token Sample.services 5 "refresh:alice@example.com"
       revoked
     = (HTTPException 401 "Invalid refresh token", revoked).
Proof.
  intros revoked.
  split; [reflexivity|]. split; [discriminate|]. split; [reflexivity|].
  destruct (refresh_token_mismatch_revokes Sample.services 0
              "refresh:alice@example.com" "alice@example.com"
              Sample.alice Sample.db eq_refl eq_refl
              ltac:(discriminate))
    as (s' & u' & Hroute & _ & _ & _ & Husers & Hcontacts & Hnu & Hnc
        & Htasks & Hreplay & _).
  assert (Hs' : s' = revoked).
  { destruct s' as [us cs nu nc ts]. cbn in Husers, Hcontacts, Hnu, Hnc, Htasks.
    subst us cs nu nc ts. reflexivity. }
  rewrite Hs' in Hroute, Hreplay.
  split; [exact Hroute|].
  apply (Hreplay 5 "refresh:alice@example.com"). reflexivity.
Defined.

(** A refresh token whose subject has no row. *)
Lemma refresh_token_needs_user_witness :
  RouteAuth.refresh_token Sample.services 0 "refresh:ghost@example.com"
    Sample.db
  = (Uncaught AttributeError, Sample.db).
Proof.
  apply (proj1 (refresh_token_needs_user Sample.services 0
                  "refresh:ghost@example.com" "ghost@example.com"
                  Sample.db eq_refl)).
  reflexivity.
Defined.

(** Carol signs up twice. *)
Lemma signup_twice_conflict_witness :
  let body := mkUserBody "carol" "carol@example.com" "pw" in
  let r1 := RouteAuth.signup Sample.services "http://a/" body Sample.db in
  RouteAuth.signup Sample.services "http://b/" body (snd r1)
  = (HTTPException 409 "Account already exists", snd r1)
  /\ List.length (RepoUsers.select_by_email "carol@example.com" (snd r1))
     = 1%nat.
Proof.
  intros body r1.
  pose proof (signup_twice_conflict Sample.services "http://a/" "http://b/"
                body body Sample.db eq_refl) as H.
  assert (Hlen : (List.length
                    (RepoUsers.select_by_email (body_email body) Sample.db)
                  <= 1)%nat) by (cbn; lia).
  destruct (H Hlen) as (H1 & H2 & _). split; [exact H1|exact H2].
Defined.

(** Bob confirms his email, alice confirms hers again. *)
Lemma confirmed_email_idempotent_witness :
  RouteAuth.confirmed_email Sample.services 0 "alice@example.com" Sample.db
  = (Return "Your email is already confirmed", Sample.db)
  /\ RouteAuth.confirmed_email Sample.services 0 "bob@example.com" Sample.db
     = (Return "Email confirmed",
        mkstate [Sample.alice; User.set_confirmed Sample.bob true]
                [Sample.ann; Sample.ben] 3 3 []).
Proof.
  split.
  - apply (proj1 (confirmed_email_idempotent Sample.services 0
                    "alice@example.com" "alice@example.com" Sample.alice
                    Sample.db eq_refl eq_refl)).
    reflexivity.
  - apply (proj1 (proj2 (confirmed_email_idempotent Sample.services 0
                           "bob@example.com" "bob@example.com" Sample.bob
                           Sample.db eq_refl eq_refl))).
    reflexivity.
Defined.

(** Alice (user 1) reaches for ben, who belongs to user 2. *)
Lemma foreign_contact_untouched_witness :
  RepoContacts.read_contact 2 1 Sample.db = (Return None, Sample.db)
  /\ RepoContacts.update_contact (mkContactResponse 2 Sample.new_fields) 2 1
       Sample.db
     = (Return None, Sample.db)
  /\ RepoContacts.delete_contact 2 1 Sample.db = (Return None, Sample.db).
Proof.
  apply (foreign_contact_untouched Sample.db Sample.ben 1
           (mkContactResponse 2 Sample.new_fields)).
  - cbn. repeat constructor; cbn; intuition discriminate.
  - cbn. auto.
  - cbn. discriminate.
Defined.


(** Alice adds a contact and reads it back. *)
Lemma add_contact_then_read_contact_witness :
  exists c s1,
    RepoContacts.add_contact Sample.new_fields 1 Sample.db = (Return c, s1)
    /\ Contact.id c = 3
    /\ RepoContacts.read_contact 3 1 s1 = (Return (Some c), s1)
    /\ Contact.last_name c = "Smith"
    /\ Contact.birth_date c = mkdate 1991 6 18.
Proof.
  destruct (add_contact_then_read_contact Sample.new_fields 1 Sample.db)
    as (c & s1 & Hadd & Hid & Hread & _ & Hln & _ & _ & Hbd & _).
  - cbn. intros r [<-|[<-|[]]]; cbn; lia.
  - exists c, s1. cbn in Hid. rewrite Hid in Hread. auto.
Defined.


End Instances.

(** * Further properties of the code *)

(** ** Contact store: listing *)
Section ContactListing.

Local Open Scope string_scope.
Local Open Scope list_scope.
Local Open Scope Z_scope.

Lemma filter_by_opt_sound (x : option string) (col v : string) :
  RepoContacts.filter_by_opt x col = true ->
  x = Some v -> v <> "" -> col = v.
Proof.
  intros H -> Hv. unfold RepoContacts.filter_by_opt in H. cbn in H.
  destruct (String.eqb_spec v "") as [E|E]; [contradiction|].
  cbn in H. now apply String.eqb_eq.
Qed.

Lemma filter_by_opt_iff (x : option string) (col : string) :
  RepoContacts.filter_by_opt x col = true
  <-> match x with
      | Some v => v = "" \/ col = v
      | None => True
      end.
Proof.
  unfold RepoContacts.filter_by_opt. destruct x as [v|]; cbn; [|tauto].
  destruct (String.eqb_spec v "") as [E|E]; cbn.
  - tauto.
  - rewrite String.eqb_eq. tauto.
Qed.

(** Any page [read_all_contacts] returns holds at most [limit] rows, each
    a row of the table owned by [user_id] that carries every non-empty
    filter value given (and passes the birthday test when [find_BD] is
    set); the state is left as it was.  A negative limit or offset is an
    error of the database, again with the state untouched. *)
Theorem read_all_contacts_page (today : Calendar.date) (limit offset : Z)
  (name last_name email : option string) (find_BD : bool) (user_id : Z)
  (s : state) :
  (forall rows s',
     RepoContacts.read_all_contacts today limit offset name last_name email
       find_BD user_id s = (Return rows, s') ->
     s' = s
     /\ (List.length rows <= Z.to_nat limit)%nat
     /\ forall c, In c rows ->
          In c (contacts s)
          /\ Contact.user_id c = user_id
          /\ (forall v, name = Some v -> v <> "" -> Contact.name c = v)
          /\ (forall v, last_name = Some v -> v <> "" ->
                        Contact.last_name c = v)
          /\ (forall v, email = Some v -> v <> "" -> Contact.email c = v)
          /\ (find_BD = true ->
              RepoContacts.has_birthday_next_days today
                (Contact.birth_date c) 7 = true))
  /\ (limit < 0 \/ offset < 0 ->
      RepoContacts.read_all_contacts today limit offset name last_name email
        find_BD user_id s = (Uncaught DBAPIError, s)).
Proof.
  split.
  - intros rows s' Hread.
    pose proof (read_all_contacts_sound _ _ _ _ _ _ _ _ _ _ _ Hread)
      as [Hs Hrows].
    split; [exact Hs|]. split.
    + unfold RepoContacts.read_all_contacts, bind, get, raise, ret in Hread.
      destruct ((limit <? 0) || (offset <? 0)); [discriminate|].
      inversion Hread; subst. apply firstn_le_length.
    + intros c Hin. destruct (Hrows c Hin) as [Hc Hw]. split; [exact Hc|].
      unfold RepoContacts.where_clause in Hw.
      apply andb_true_iff in Hw. destruct Hw as [Hw Hbd].
      apply andb_true_iff in Hw. destruct Hw as [Hw Hem].
      apply andb_true_iff in Hw. destruct Hw as [Hw Hln].
      apply andb_true_iff in Hw. destruct Hw as [Hown Hnm].
      apply Z.eqb_eq in Hown.
      split; [exact Hown|].
      split; [intros v; now apply filter_by_opt_sound|].
      split; [intros v; now apply filter_by_opt_sound|].
      split; [intros v; now apply filter_by_opt_sound|].
      intros ->. exact Hbd.
  - intros Hneg.
    unfold RepoContacts.read_all_contacts, bind, get, raise, ret.
    destruct (Z.ltb_spec limit 0), (Z.ltb_spec offset 0); cbn;
      try reflexivity.
    lia.
Qed.

(** With no offset, a limit that covers the table and [find_BD] off,
    [read_all_contacts] returns exactly the caller's contacts that agree
    with each filter given; a filter that is absent or the empty string
    restricts nothing. *)
Theorem read_all_contacts_exact (today : Calendar.date) (limit : Z)
  (name last_name email : option string) (user_id : Z) (s : state) :
  Z.of_nat (List.length (contacts s)) <= limit ->
  exists rows,
    RepoContacts.read_all_contacts today limit 0 name last_name email
      false user_id s = (Return rows, s)
    /\ forall c,
         In c rows
         <-> In c (contacts s)
             /\ Contact.user_id c = user_id
             /\ match name with
                | Some v => v = "" \/ Contact.name c = v
                | None => True
                end
             /\ match last_name with
                | Some v => v = "" \/ Contact.last_name c = v
                | None => True
                end
             /\ match email with
                | Some v => v = "" \/ Contact.email c = v
                | None => True
                end.
Proof.
  intros Hlim. eexists. split; [now apply read_all_contacts_unpaged|].
  intros c. rewrite filter_In. unfold RepoContacts.where_clause.
  rewrite !andb_true_iff, Z.eqb_eq, !filter_by_opt_iff. tauto.
Qed.

End ContactListing.

(** ** Contact store: one contact at a time *)
Section ContactRows.

Local Open Scope string_scope.
Local Open Scope list_scope.
Local Open Scope Z_scope.

Lemma scalar_one_in {A : Type} (rows : list A) (x : A) :
  scalar_one_or_none rows = Return (Some x) -> In x rows.
Proof. intros H. apply scalar_one_or_none_some in H. subst. now left. Qed.

Lemma select_contact_in (contact_id user_id : Z) (s : state)
  (c : Contact.t) :
  In c (RepoContacts.select_contact contact_id user_id s) ->
  In c (contacts s) /\ Contact.id c = contact_id
  /\ Contact.user_id c = user_id.
Proof.
  unfold RepoContacts.select_contact. rewrite filter_In, andb_true_iff.
  rewrite !Z.eqb_eq. tauto.
Qed.

(** Whatever [read_contact] and [delete_contact] hand back is a row of the
    table with the id asked for and owned by the caller, no matter what
    else the table holds; [read_contact] changes nothing, and after
    [delete_contact] has returned a contact no row with that id is left
    while every row with another id stays. *)
Theorem contact_results_owned (contact_id user_id : Z) (s : state) :
  (forall c s',
     RepoContacts.read_contact contact_id user_id s = (Return (Some c), s')
     -> s' = s /\ In c (contacts s) /\ Contact.id c = contact_id
        /\ Contact.user_id c = user_id)
  /\ (forall c s',
        RepoContacts.delete_contact contact_id user_id s
        = (Return (Some c), s')
        -> In c (contacts s) /\ Contact.id c = contact_id
           /\ Contact.user_id c = user_id
           /\ (forall r, In r (contacts s')
                         <-> In r (contacts s) /\ Contact.id r <> contact_id)
           /\ users s' = users s).
Proof.
  split.
  - intros c s'. rewrite read_contact_state. intros H. inversion H. subst s'.
    split; [reflexivity|]. apply select_contact_in.
    now apply scalar_one_in.
  - intros c s'. unfold RepoContacts.delete_contact. unfold bind at 1.
    rewrite read_contact_state.
    destruct (RepoContacts.select_contact contact_id user_id s)
      as [|c0 [|c1 rows]] eqn:Hsel; cbn; try discriminate.
    intros H. inversion H. subst c0 s'. clear H.
    assert (Hin : In c (RepoContacts.select_contact contact_id user_id s))
      by (rewrite Hsel; now left).
    apply select_contact_in in Hin. destruct Hin as (Hc & Hid & Hown).
    split; [exact Hc|]. split; [exact Hid|]. split; [exact Hown|].
    split; [|reflexivity].
    intros r. cbn. rewrite filter_In, negb_true_iff, Z.eqb_neq.
    split; intros [Hr Hne]; (split; [exact Hr|congruence]).
Qed.

(** Deleting one's own contact, ids being unique: the contact is returned
    and is gone from the table, all other rows stay, reading it afterwards
    gives none, and deleting it again gives none and changes nothing. *)
Theorem delete_contact_removes (s : state) (c : Contact.t) :
  NoDup (map Contact.id (contacts s)) ->
  In c (contacts s) ->
  exists s1,
    RepoContacts.delete_contact (Contact.id c) (Contact.user_id c) s
    = (Return (Some c), s1)
    /\ (forall r, In r (contacts s1) <-> In r (contacts s) /\ r <> c)
    /\ RepoContacts.read_contact (Contact.id c) (Contact.user_id c) s1
       = (Return None, s1)
    /\ RepoContacts.delete_contact (Contact.id c) (Contact.user_id c) s1
       = (Return None, s1).
Proof.
  intros Hnd Hin.
  assert (Hdel : RepoContacts.delete_contact (Contact.id c)
                   (Contact.user_id c) s
                 = (Return (Some c),
                    with_contacts s
                      (filter (fun r => negb (Contact.id r =? Contact.id c))
                              (contacts s)))).
  { unfold RepoContacts.delete_contact. unfold bind at 1.
    rewrite read_contact_state, select_contact_keyed by assumption.
    now rewrite Z.eqb_refl. }
  eexists. split; [exact Hdel|].
  assert (Hgone : RepoContacts.select_contact (Contact.id c)
                    (Contact.user_id c)
                    (with_contacts s
                       (filter
                          (fun r => negb (Contact.id r =? Contact.id c))
                          (contacts s))) = []).
  { unfold RepoContacts.select_contact. cbn. apply filter_none.
    intros r Hr. apply filter_In in Hr. destruct Hr as [_ Hr].
    apply negb_true_iff in Hr. now rewrite Hr. }
  split; [|split].
  - intros r. cbn. rewrite filter_In, negb_true_iff, Z.eqb_neq. split.
    + intros [Hr Hne]. split; [exact Hr|]. intros ->. now apply Hne.
    + intros [Hr Hne]. split; [exact Hr|]. intros Hid. apply Hne.
      now apply (same_key_same_row (contacts s)).
  - now rewrite read_contact_state, Hgone.
  - unfold RepoContacts.delete_contact. unfold bind at 1.
    now rewrite read_contact_state, Hgone.
Qed.

(** Updating one's own contact, ids being unique: the contact returned
    keeps its id and owner and carries the body's name, email and notes;
    reading the contact afterwards gives that same row; the table keeps
    its length and every row with another id. *)
Theorem update_contact_in_place (s : state) (c : Contact.t)
  (body : ContactValidationSchemaResponse) :
  NoDup (map Contact.id (contacts s)) ->
  In c (contacts s) ->
  exists obj s1,
    RepoContacts.update_contact body (Contact.id c) (Contact.user_id c) s
    = (Return (Some obj), s1)
    /\ Contact.id (row obj) = Contact.id c
    /\ Contact.user_id (row obj) = Contact.user_id c
    /\ Contact.name (row obj) = body_name (resp_fields body)
    /\ Contact.email (row obj) = body_contact_email (resp_fields body)
    /\ Contact.rest (row obj) = body_rest (resp_fields body)
    /\ RepoContacts.read_contact (Contact.id c) (Contact.user_id c) s1
       = (Return (Some (row obj)), s1)
    /\ List.length (contacts s1) = List.length (contacts s)
    /\ (forall r, Contact.id r <> Contact.id c ->
                  (In r (contacts s1) <-> In r (contacts s)))
    /\ users s1 = users s.
Proof.
  intros Hnd Hin.
  pose proof (update_contact_found s c body Hnd Hin) as Hupd.
  cbv zeta in Hupd.
  set (c' := Contact.mk (Contact.id c) (body_name (resp_fields body))
               (Contact.last_name c)
               (body_contact_email (resp_fields body))
               (Contact.phone_number c) (Contact.birth_date c)
               (body_rest (resp_fields body)) (Contact.user_id c)) in *.
  set (g := fun r => if Contact.id r =? Contact.id c then c' else r) in *.
  assert (Hids : map Contact.id (map g (contacts s))
                 = map Contact.id (contacts s)).
  { rewrite map_map. apply map_ext. intros r. unfold g.
    destruct (Z.eqb_spec (Contact.id r) (Contact.id c)) as [E|E]; cbn; auto. }
  assert (Hin' : In c' (map g (contacts s))).
  { replace c' with (g c) by (unfold g; now rewrite Z.eqb_refl).
    now apply in_map. }
  eexists. eexists. split; [exact Hupd|]. cbn [row].
  do 5 (split; [reflexivity|]).
  split; [|split; [|split; [|reflexivity]]].
  - rewrite read_contact_state.
    change (Contact.id c) with (Contact.id c').
    change (Contact.user_id c) with (Contact.user_id c').
    rewrite select_contact_keyed.
    + now rewrite Z.eqb_refl.
    + cbn [contacts with_contacts]. now rewrite Hids.
    + exact Hin'.
  - cbn. apply length_map.
  - intros r Hne. cbn. split.
    + intros Hr. apply in_map_iff in Hr. destruct Hr as [r0 [Hg Hr0]].
      unfold g in Hg.
      destruct (Z.eqb_spec (Contact.id r0) (Contact.id c)) as [E|E].
      * subst r. cbn in Hne. contradiction.
      * now subst r0.
    + intros Hr. apply in_map_iff. exists r. split; [|exact Hr].
      unfold g. apply Z.eqb_neq in Hne. now rewrite Hne.
Qed.

(** The primary key of the contacts table survives every write of the
    store: after [add_contact], [update_contact] or [delete_contact] ids
    are still unique and the id sequence is still ahead of all of them. *)
Theorem contacts_keyed_preserved (s : state)
  (fields : ContactValidationSchema)
  (body : ContactValidationSchemaResponse) (contact_id user_id : Z) :
  contacts_keyed s ->
  contacts_keyed (snd (RepoContacts.add_contact fields user_id s))
  /\ contacts_keyed
       (snd (RepoContacts.update_contact body contact_id user_id s))
  /\ contacts_keyed (snd (RepoContacts.delete_contact contact_id user_id s)).
Proof.
  intros Hk. split; [|split].
  - now apply contacts_keyed_add.
  - now apply contacts_keyed_update.
  - now apply contacts_keyed_delete.
Qed.

(** Two additions in a row, on a keyed table: the second contact gets the
    next id, both contacts are then read back by their owners, and every
    lookup of an id that was in use before the additions gives what it
    gave before. *)
Theorem add_contact_twice (b1 b2 : ContactValidationSchema) (o1 o2 : Z)
  (s : state) :
  contacts_keyed s ->
  exists c1 s1 c2 s2,
    RepoContacts.add_contact b1 o1 s = (Return c1, s1)
    /\ RepoContacts.add_contact b2 o2 s1 = (Return c2, s2)
    /\ Contact.id c2 = Contact.id c1 + 1
    /\ RepoContacts.read_contact (Contact.id c1) o1 s2
       = (Return (Some c1), s2)
    /\ RepoContacts.read_contact (Contact.id c2) o2 s2
       = (Return (Some c2), s2)
    /\ (forall contact_id user_id,
          contact_id < next_contact_id s ->
          RepoContacts.select_contact contact_id user_id s2
          = RepoContacts.select_contact contact_id user_id s).
Proof.
  intros [Hnd Hseq].
  unfold RepoContacts.add_contact, bind, get, put, ret. cbn beta iota zeta.
  eexists. eexists. eexists. eexists.
  split; [reflexivity|]. split; [reflexivity|]. cbn [Contact.id].
  split; [cbn; lia|].
  assert (Hold : forall cid uid,
             filter (fun r => (Contact.id r =? cid)
                              && (Contact.user_id r =? uid)) (contacts s)
             = [] \/ cid < next_contact_id s).
  { intros cid uid.
    destruct (Z.ltb_spec cid (next_contact_id s)); [now right|left].
    apply filter_none. intros r Hr. apply Hseq in Hr.
    apply andb_false_iff. left. apply Z.eqb_neq. lia. }
  split; [|split].
  - rewrite read_contact_state. unfold RepoContacts.select_contact.
    cbn [contacts]. rewrite !filter_app. cbn.
    rewrite !Z.eqb_refl. cbn.
    destruct (Z.eqb_spec (next_contact_id s + 1) (next_contact_id s));
      [lia|]. cbn.
    destruct (Hold (next_contact_id s) o1) as [->|]; [reflexivity|lia].
  - rewrite read_contact_state. unfold RepoContacts.select_contact.
    cbn [contacts]. rewrite !filter_app. cbn.
    rewrite !Z.eqb_refl. cbn.
    destruct (Z.eqb_spec (next_contact_id s) (next_contact_id s + 1));
      [lia|]. cbn.
    destruct (Hold (next_contact_id s + 1) o2) as [->|]; [reflexivity|lia].
  - intros cid uid Hlt. unfold RepoContacts.select_contact.
    cbn [contacts]. rewrite !filter_app. cbn.
    destruct (Z.eqb_spec (next_contact_id s) cid); [lia|].
    destruct (Z.eqb_spec (next_contact_id s + 1) cid); [lia|].
    cbn. now rewrite !app_nil_r.
Qed.

End ContactRows.

(** ** User store and authentication flow *)
Section AuthMore.

Variable svc : Services.

Local Open Scope string_scope.
Local Open Scope list_scope.
Local Open Scope Z_scope.

(** The unique email constraint survives every request of the auth
    router, and while it holds the lookup by email never raises: it gives
    none, or the one row carrying that email. *)
Theorem emails_unique_invariant (r : RouteAuth.AuthRequest) (s : state) :
  emails_unique s ->
  emails_unique (RouteAuth.serve svc r s)
  /\ (forall email,
        RepoUsers.get_user_by_email email s = (Return None, s)
        \/ exists u,
             RepoUsers.get_user_by_email email s = (Return (Some u), s)
             /\ In u (users s) /\ User.email u = email).
Proof.
  intros Hu. split; [now apply emails_unique_serve|].
  intros email. rewrite get_user_by_email_state.
  pose proof (emails_unique_select email s Hu) as Hlen.
  destruct (RepoUsers.select_by_email email s) as [|u [|u' rows]] eqn:Hsel.
  - now left.
  - right. exists u. split; [reflexivity|].
    assert (Hin : In u (RepoUsers.select_by_email email s))
      by (rewrite Hsel; now left).
    split; [|now apply (selected_user_email email s)].
    unfold RepoUsers.select_by_email in Hin. apply filter_In in Hin. tauto.
  - cbn in Hlen. lia.
Qed.

Lemma identity_kept_refl (s : state) : identity_kept s s.
Proof. intros u Hin. exists u. auto. Qed.

Lemma identity_kept_flush (uid : Z) (f : User.t -> User.t) (s : state) :
  (forall u, User.id (f u) = User.id u) ->
  (forall u, User.email (f u) = User.email u) ->
  (forall u, User.username (f u) = User.username u) ->
  (forall u, User.hash (f u) = User.hash u) ->
  identity_kept s (RepoUsers.flush_user uid f s).
Proof.
  intros Hid Hem Hun Hh u Hin.
  exists (if User.id u =? uid then f u else u). split.
  - unfold RepoUsers.flush_user. cbn.
    now apply (in_map (fun u => if User.id u =? uid then f u else u)).
  - destruct (User.id u =? uid); auto.
Qed.

(** No request of the auth router, and no avatar update, removes a user
    row or changes its id, email, username or password hash. *)
Theorem identity_kept_always (r : RouteAuth.AuthRequest)
  (email : string) (url : option string) (s : state) :
  identity_kept s (RouteAuth.serve svc r s)
  /\ identity_kept s (snd (RepoUsers.update_avatar_url email url s)).
Proof.
  split.
  - destruct r as [base_url body | now body | now token | now token];
      unfold RouteAuth.serve, RouteAuth.signup, RouteAuth.login,
        RouteAuth.refresh_token, RouteAuth.confirmed_email,
        RepoUsers.confirmed_email, RepoUsers.create_user,
        RepoUsers.update_token, RepoUsers.get_user_by_email,
        bind, lift, get, put, raise, raise_http, ret.
    + destruct (RepoUsers.select_by_email _ s) as [|u [|u' rows]]; cbn;
        try apply identity_kept_refl.
      intros u Hin. exists u. cbn. rewrite in_app_iff. auto.
    + destruct (RepoUsers.select_by_email _ s) as [|u [|u' rows]]; cbn;
        try apply identity_kept_refl.
      destruct (User.confirmed u); cbn; try apply identity_kept_refl.
      destruct (verify_password svc _ _); cbn;
        try apply identity_kept_refl.
      now apply identity_kept_flush.
    + destruct (decode_refresh_token svc now token) as [e| |]; cbn;
        try apply identity_kept_refl.
      destruct (RepoUsers.select_by_email _ s) as [|u [|u' rows]]; cbn;
        try apply identity_kept_refl.
      destruct (RouteAuth.token_differs _ _); cbn;
        now apply identity_kept_flush.
    + destruct (get_email_from_token svc now token) as [e| |]; cbn;
        try apply identity_kept_refl.
      destruct (RepoUsers.select_by_email _ s) as [|u [|u' rows]] eqn:Hsel;
        cbn; try apply identity_kept_refl.
      destruct (User.confirmed u); cbn; try apply identity_kept_refl.
      rewrite Hsel. cbn. now apply identity_kept_flush.
  - unfold RepoUsers.update_avatar_url, RepoUsers.get_user_by_email,
      bind, lift, get, put, raise, ret.
    destruct (RepoUsers.select_by_email _ s) as [|u [|u' rows]]; cbn;
      try apply identity_kept_refl.
    now apply identity_kept_flush.
Qed.

(** The two halves of the application keep to their own tables: a request
    of the auth router leaves the contacts table and its id sequence as
    they were, and the writes of the contact store leave the users table,
    its id sequence and the scheduled emails as they were. *)
Theorem tables_kept_apart (r : RouteAuth.AuthRequest)
  (fields : ContactValidationSchema)
  (body : ContactValidationSchemaResponse) (contact_id user_id : Z)
  (s : state) :
  contacts_side_kept s (RouteAuth.serve svc r s)
  /\ users_side_kept s (snd (RepoContacts.add_contact fields user_id s))
  /\ users_side_kept s
       (snd (RepoContacts.update_contact body contact_id user_id s))
  /\ users_side_kept s
       (snd (RepoContacts.delete_contact contact_id user_id s)).
Proof.
  unfold contacts_side_kept, users_side_kept.
  split; [|split; [|split]].
  - destruct r as [base_url b | now b | now token | now token];
      unfold RouteAuth.serve, RouteAuth.signup, RouteAuth.login,
        RouteAuth.refresh_token, RouteAuth.confirmed_email,
        RepoUsers.confirmed_email, RepoUsers.create_user,
        RepoUsers.update_token, RepoUsers.get_user_by_email,
        bind, lift, get, put, raise, raise_http, ret.
    + destruct (RepoUsers.select_by_email _ s) as [|u [|u' rows]]; cbn;
        auto.
    + destruct (RepoUsers.select_by_email _ s) as [|u [|u' rows]]; cbn;
        auto.
      destruct (User.confirmed u); cbn; auto.
      destruct (verify_password svc _ _); cbn; auto.
    + destruct (decode_refresh_token svc now token) as [e| |]; cbn; auto.
      destruct (RepoUsers.select_by_email _ s) as [|u [|u' rows]]; cbn;
        auto.
      destruct (RouteAuth.token_differs _ _); cbn; auto.
    + destruct (get_email_from_token svc now token) as [e| |]; cbn; auto.
      destruct (RepoUsers.select_by_email _ s) as [|u [|u' rows]] eqn:Hsel;
        cbn; auto.
      destruct (User.confirmed u); cbn; auto.
      rewrite Hsel. cbn. auto.
  - cbn. auto.
  - unfold RepoContacts.update_contact, RepoContacts.read_contact,
      bind, lift, get, put, ret.
    destruct (RepoContacts.select_contact contact_id user_id s)
      as [|c [|c' rows]]; cbn; auto.
  - unfold RepoContacts.delete_contact, RepoContacts.read_contact,
      bind, lift, get, put, ret.
    destruct (RepoContacts.select_contact contact_id user_id s)
      as [|c [|c' rows]]; cbn; auto.
Qed.

Lemma lookup_after_flush (email : string) (u : User.t)
  (f : User.t -> User.t) (s : state) :
  (forall r, User.email (f r) = User.email r) ->
  RepoUsers.get_user_by_email email s = (Return (Some u), s) ->
  RepoUsers.get_user_by_email email (RepoUsers.flush_user (User.id u) f s)
  = (Return (Some (f u)), RepoUsers.flush_user (User.id u) f s).
Proof.
  intros Hf Hget. apply get_user_by_email_some in Hget.
  destruct Hget as [Hsel _]. apply get_user_by_email_some.
  split; [|reflexivity].
  rewrite select_by_email_flush by exact Hf.
  rewrite Hsel. cbn. now rewrite Z.eqb_refl.
Qed.

Lemma login_accepts (now : Z) (body : OAuth2PasswordRequestForm)
  (u : User.t) (s : state) :
  RepoUsers.get_user_by_email (form_username body) s
  = (Return (Some u), s) ->
  User.confirmed u = true ->
  verify_password svc (form_password body) (User.hash u) = true ->
  RouteAuth.login svc now body s
  = (Return (mkTokens (create_access_token svc now (User.email u))
                      (create_refresh_token svc now (User.email u))
                      "bearer"),
     RepoUsers.flush_user (User.id u)
       (fun r => User.set_refresh_token r
                   (Some (create_refresh_token svc now (User.email u))))
       s).
Proof.
  intros Hget Hc Hv. unfold RouteAuth.login. unfold bind at 1.
  now rewrite Hget, Hc, Hv.
Qed.

Lemma confirmed_email_first (now : Z) (token email : string) (u : User.t)
  (s : state) :
  get_email_from_token svc now token = Return email ->
  RepoUsers.get_user_by_email email s = (Return (Some u), s) ->
  User.confirmed u = false ->
  RouteAuth.confirmed_email svc now token s
  = (Return "Email confirmed",
     RepoUsers.flush_user (User.id u)
       (fun r => User.set_confirmed r true) s).
Proof.
  intros Htok Hget Hc. unfold RouteAuth.confirmed_email, lift.
  unfold bind at 1. rewrite Htok. unfold bind at 1.
  rewrite Hget, Hc. cbn [negb].
  unfold RepoUsers.confirmed_email. unfold bind at 1. unfold bind at 1.
  now rewrite Hget.
Qed.

Lemma refresh_token_accepts (now : Z) (token email : string) (u : User.t)
  (s : state) :
  decode_refresh_token svc now token = Return email ->
  RepoUsers.get_user_by_email email s = (Return (Some u), s) ->
  User.refresh_token u = Some token ->
  RouteAuth.refresh_token svc now token s
  = (Return (mkTokens (create_access_token svc now email)
                      (create_refresh_token svc now email) "bearer"),
     RepoUsers.flush_user (User.id u)
       (fun r => User.set_refresh_token r
                   (Some (create_refresh_token svc now email)))
       s).
Proof.
  intros Hdec Hget Hst. unfold RouteAuth.refresh_token, lift.
  unfold bind at 1. rewrite Hdec. unfold bind at 1. rewrite Hget.
  unfold RouteAuth.token_differs. rewrite Hst, String.eqb_refl.
  reflexivity.
Qed.

Lemma refresh_token_rejects (now : Z) (token email : string) (u : User.t)
  (s : state) :
  decode_refresh_token svc now token = Return email ->
  RepoUsers.get_user_by_email email s = (Return (Some u), s) ->
  User.refresh_token u <> Some token ->
  RouteAuth.refresh_token svc now token s
  = (HTTPException 401 "Invalid refresh token",
     RepoUsers.flush_user (User.id u)
       (fun r => User.set_refresh_token r None) s).
Proof.
  intros Hdec Hget Hne. unfold RouteAuth.refresh_token, lift.
  unfold bind at 1. rewrite Hdec. unfold bind at 1. rewrite Hget.
  apply token_differs_true in Hne. now rewrite Hne.
Qed.

(** A signup with an email no row carries yet: the new row gets the next
    id, stores the hash of the password given, starts unconfirmed with no
    refresh token, and one confirmation email is scheduled for it; a login
    for that email straight afterwards is refused with "Email not
    confirmed", whatever the password, and changes nothing. *)
Theorem signup_then_login_unconfirmed (base_url : string)
  (body : UserValidationSchema) (now : Z) (password : string) (s : state) :
  RepoUsers.select_by_email (body_email body) s = [] ->
  exists u s1,
    RouteAuth.signup svc base_url body s = (Return u, s1)
    /\ User.id u = next_user_id s
    /\ User.hash u = get_password_hash svc (body_hash body)
    /\ User.confirmed u = false
    /\ User.refresh_token u = None
    /\ users s1 = users s ++ [u]
    /\ next_user_id s1 = next_user_id s + 1
    /\ tasks s1
       = tasks s ++ [mkEmailTask (body_email body) (body_username body)
                                 base_url]
    /\ RouteAuth.login svc now (mkLoginForm (body_email body) password) s1
       = (HTTPException 401 "Email not confirmed", s1).
Proof.
  intros Hsel. pose proof (signup_fresh svc base_url body s Hsel) as H.
  cbv zeta in H. eexists. eexists. split; [exact H|].
  do 7 (split; [reflexivity|]).
  unfold RouteAuth.login. unfold bind at 1.
  rewrite get_user_by_email_state.
  cbn [form_username].
  erewrite select_by_email_app by reflexivity.
  rewrite Hsel. cbn. rewrite String.eqb_refl. reflexivity.
Qed.

(** The whole way in: signup with a fresh email, confirmation with a token
    for that email, then login with the password signed up with (which the
    password service verifies against its own hash) returns a token pair,
    and the refresh token returned is the one stored on the user's row. *)
Theorem signup_confirm_login (base_url token : string)
  (body : UserValidationSchema) (t1 t2 : Z) (s : state) :
  RepoUsers.select_by_email (body_email body) s = [] ->
  get_email_from_token svc t1 token = Return (body_email body) ->
  verify_password svc (body_hash body)
    (get_password_hash svc (body_hash body)) = true ->
  exists u s1 s2 s3 tokens u3,
    RouteAuth.signup svc base_url body s = (Return u, s1)
    /\ RouteAuth.confirmed_email svc t1 token s1
       = (Return "Email confirmed", s2)
    /\ RouteAuth.login svc t2
         (mkLoginForm (body_email body) (body_hash body)) s2
       = (Return tokens, s3)
    /\ token_type tokens = "bearer"
    /\ RepoUsers.get_user_by_email (body_email body) s3
       = (Return (Some u3), s3)
    /\ User.id u3 = User.id u
    /\ User.confirmed u3 = true
    /\ User.refresh_token u3 = Some (refresh_token tokens).
Proof.
  intros Hsel Htok Hver.
  pose proof (signup_fresh svc base_url body s Hsel) as H1. cbv zeta in H1.
  set (u := User.mk _ _ _ _ _ _ _) in H1.
  set (s1 := mkstate _ _ _ _ _) in H1.
  assert (Hsel1 : RepoUsers.select_by_email (body_email body) s1 = [u]).
  { unfold s1. erewrite select_by_email_app by reflexivity.
    rewrite Hsel. cbn. now rewrite String.eqb_refl. }
  assert (Hget1 : RepoUsers.get_user_by_email (body_email body) s1
                  = (Return (Some u), s1))
    by (now apply get_user_by_email_some).
  pose proof (confirmed_email_first t1 token (body_email body) u s1
                Htok Hget1 eq_refl) as H2.
  pose proof (lookup_after_flush (body_email body) u
                (fun r => User.set_confirmed r true) s1
                (fun r => eq_refl) Hget1) as Hget2.
  set (s2 := RepoUsers.flush_user (User.id u)
               (fun r => User.set_confirmed r true) s1) in *.
  set (u2 := User.set_confirmed u true) in *.
  pose proof (login_accepts t2
                (mkLoginForm (body_email body) (body_hash body)) u2 s2
                Hget2 eq_refl Hver) as Hlogin.
  exists u, s1, s2. eexists. eexists. eexists.
  split; [exact H1|]. split; [exact H2|]. split; [exact Hlogin|].
  split; [reflexivity|].
  split.
  - exact (lookup_after_flush (body_email body) u2
             (fun r => User.set_refresh_token r
                         (Some (create_refresh_token svc t2
                                  (User.email u2))))
             s2 (fun r => eq_refl) Hget2).
  - cbn. auto.
Qed.

(** Rotation: a login stores the refresh token it issues on the user's
    row; a refresh with that token succeeds and stores the new refresh
    token in its place; the token from the login, presented again, is then
    refused with "Invalid refresh token" (when the new token differs from
    it), which clears the stored token, so that the new token stops working
    as well.  At each step the row found by the user's email is the row as
    it was before the login with only its refresh token replaced. *)
Theorem login_refresh_rotation (t1 t2 t3 t4 : Z)
  (body : OAuth2PasswordRequestForm) (u : User.t) (s : state) :
  RepoUsers.get_user_by_email (form_username body) s
  = (Return (Some u), s) ->
  User.confirmed u = true ->
  verify_password svc (form_password body) (User.hash u) = true ->
  let email := User.email u in
  let old := create_refresh_token svc t1 email in
  let new := create_refresh_token svc t2 email in
  let stored := fun token =>
    User.mk (User.id u) (User.username u) (User.email u) (User.hash u)
      (User.avatar u) token (User.confirmed u) in
  decode_refresh_token svc t2 old = Return email ->
  decode_refresh_token svc t3 old = Return email ->
  decode_refresh_token svc t4 new = Return email ->
  new <> old ->
  exists s1 s2 s3 u1 u2 u3,
    RouteAuth.login svc t1 body s
    = (Return (mkTokens (create_access_token svc t1 email) old "bearer"), s1)
    /\ RepoUsers.get_user_by_email email s1 = (Return (Some u1), s1)
    /\ User.refresh_token u1 = Some old
    /\ u1 = stored (Some old)
    /\ RouteAuth.refresh_token svc t2 old s1
       = (Return (mkTokens (create_access_token svc t2 email) new "bearer"),
          s2)
    /\ RepoUsers.get_user_by_email email s2 = (Return (Some u2), s2)
    /\ User.refresh_token u2 = Some new
    /\ u2 = stored (Some new)
    /\ RouteAuth.refresh_token svc t3 old s2
       = (HTTPException 401 "Invalid refresh token", s3)
    /\ RepoUsers.get_user_by_email email s3 = (Return (Some u3), s3)
    /\ User.refresh_token u3 = None
    /\ u3 = stored None
    /\ RouteAuth.refresh_token svc t4 new s3
       = (HTTPException 401 "Invalid refresh token", s3).
Proof.
  intros Hget Hc Hv email old new stored Hd2 Hd3 Hd4 Hne.
  assert (Hem : form_username body = email).
  { apply get_user_by_email_some in Hget. destruct Hget as [Hsel _].
    symmetry. apply (selected_user_email (form_username body) s).
    rewrite Hsel. now left. }
  rewrite Hem in Hget.
  pose proof (login_accepts t1 body u s) as H1.
  rewrite Hem in H1. specialize (H1 Hget Hc Hv). fold email old in H1.
  pose proof (lookup_after_flush email u
                (fun r => User.set_refresh_token r (Some old)) s
                (fun r => eq_refl) Hget) as Hget1.
  set (s1 := RepoUsers.flush_user (User.id u)
               (fun r => User.set_refresh_token r (Some old)) s) in *.
  set (u1 := User.set_refresh_token u (Some old)) in *.
  pose proof (refresh_token_accepts t2 old email u1 s1 Hd2 Hget1 eq_refl)
    as H2. fold new in H2.
  pose proof (lookup_after_flush email u1
                (fun r => User.set_refresh_token r (Some new)) s1
                (fun r => eq_refl) Hget1) as Hget2.
  set (s2 := RepoUsers.flush_user (User.id u1)
               (fun r => User.set_refresh_token r (Some new)) s1) in *.
  set (u2 := User.set_refresh_token u1 (Some new)) in *.
  assert (Hne2 : User.refresh_token u2 <> Some old).
  { cbn. intros E. inversion E. contradiction. }
  pose proof (refresh_token_rejects t3 old email u2 s2 Hd3 Hget2 Hne2)
    as H3.
  pose proof (lookup_after_flush email u2
                (fun r => User.set_refresh_token r None) s2
                (fun r => eq_refl) Hget2) as Hget3.
  set (s3 := RepoUsers.flush_user (User.id u2)
               (fun r => User.set_refresh_token r None) s2) in *.
  set (u3 := User.set_refresh_token u2 None) in *.
  assert (Hne3 : User.refresh_token u3 <> Some new) by (cbn; discriminate).
  pose proof (refresh_token_rejects t4 new email u3 s3 Hd4 Hget3 Hne3)
    as H4.
  exists s1, s2, s3, u1, u2, u3.
  split; [exact H1|]. split; [exact Hget1|].
  split; [reflexivity|]. split; [reflexivity|].
  split; [exact H2|]. split; [exact Hget2|].
  split; [reflexivity|]. split; [reflexivity|].
  split; [exact H3|]. split; [exact Hget3|].
  split; [reflexivity|]. split; [reflexivity|].
  rewrite H4. f_equal.
  unfold s3. apply flush_user_idem; reflexivity.
Qed.

(** Errors of the confirmation route: a token the token service rejects
    gives the service's own error, a token for an email without a row
    gives 400 "Verification error"; in both cases nothing is written. *)
Theorem confirmed_email_errors (now : Z) (token : string) (s : state) :
  (forall status detail,
     get_email_from_token svc now token = HTTPException status detail ->
     RouteAuth.confirmed_email svc now token s
     = (HTTPException status detail, s))
  /\ (forall email,
        get_email_from_token svc now token = Return email ->
        RepoUsers.get_user_by_email email s = (Return None, s) ->
        RouteAuth.confirmed_email svc now token s
        = (HTTPException 400 "Verification error", s)).
Proof.
  split.
  - intros status detail Htok. unfold RouteAuth.confirmed_email, lift.
    unfold bind at 1. now rewrite Htok.
  - intros email Htok Hget. unfold RouteAuth.confirmed_email, lift.
    unfold bind at 1. rewrite Htok. unfold bind at 1. now rewrite Hget.
Qed.

(** [update_avatar_url]: for an email with a row the avatar of that row,
    and nothing else in it, is replaced: the user returned has the new
    avatar and the id, username, email, password hash, refresh token and
    confirmation flag the row had, it is what the lookup by email gives
    afterwards, the other rows of the users table are as they were, in the
    same places, and no other table or counter moves; for an email without
    a row the call dies with an uncaught AttributeError and writes
    nothing. *)
Theorem update_avatar_url_outcomes (email : string) (url : option string)
  (s : state) :
  (forall u,
     RepoUsers.get_user_by_email email s = (Return (Some u), s) ->
     exists s1 u1,
       RepoUsers.update_avatar_url email url s = (Return u1, s1)
       /\ User.avatar u1 = url
       /\ User.id u1 = User.id u
       /\ User.username u1 = User.username u
       /\ User.email u1 = User.email u
       /\ User.hash u1 = User.hash u
       /\ User.refresh_token u1 = User.refresh_token u
       /\ User.confirmed u1 = User.confirmed u
       /\ RepoUsers.get_user_by_email email s1 = (Return (Some u1), s1)
       /\ users s1
          = map (fun r =>
                   if User.id r =? User.id u
                   then User.mk (User.id r) (User.username r) (User.email r)
                          (User.hash r) url (User.refresh_token r)
                          (User.confirmed r)
                   else r)
              (users s)
       /\ (forall r, User.id r <> User.id u ->
                     (In r (users s1) <-> In r (users s)))
       /\ contacts s1 = contacts s
       /\ next_user_id s1 = next_user_id s
       /\ next_contact_id s1 = next_contact_id s
       /\ tasks s1 = tasks s)
  /\ (RepoUsers.get_user_by_email email s = (Return None, s) ->
      RepoUsers.update_avatar_url email url s
      = (Uncaught AttributeError, s)).
Proof.
  split.
  - intros u Hget.
    exists (RepoUsers.flush_user (User.id u)
              (fun r => User.set_avatar r url) s), (User.set_avatar u url).
    split.
    + unfold RepoUsers.update_avatar_url. unfold bind at 1. rewrite Hget.
      reflexivity.
    + do 7 (split; [reflexivity|]). split.
      * apply (lookup_after_flush email u (fun r => User.set_avatar r url) s
                 (fun r => eq_refl) Hget).
      * split; [reflexivity|].
        split; [|repeat split; reflexivity]. intros r Hne. cbn. split.
        -- intros Hr. apply in_map_iff in Hr. destruct Hr as [r0 [Hg Hr0]].
           destruct (Z.eqb_spec (User.id r0) (User.id u)) as [E|E].
           ++ subst r. cbn in Hne. contradiction.
           ++ now subst r0.
        -- intros Hr. apply in_map_iff. exists r. split; [|exact Hr].
           apply Z.eqb_neq in Hne. now rewrite Hne.
  - intros Hget. unfold RepoUsers.update_avatar_url. unfold bind at 1.
    now rewrite Hget.
Qed.

End AuthMore.

(** ** Health check *)
Section HealthCheck.

Local Open Scope string_scope.

(** The health check answers the welcome message exactly when the probe
    query gave a row.  In every other case, the probe raising or giving no
    row, the answer is 500 "Error connecting to the database": the handler's
    own except clause also catches the "Database is not configured
    correctly" error raised inside the try block, so that detail never
    reaches the caller.  The state is never touched. *)
Theorem healthchecker_outcomes (select_1 : outcome (option Z))
  (s : state) :
  (forall row, select_1 = Return (Some row) ->
     Main.healthchecker select_1 s = (Return "Welcome to FastAPI!", s))
  /\ ((forall row, select_1 <> Return (Some row)) ->
      Main.healthchecker select_1 s
      = (HTTPException 500 "Error connecting to the database", s))
  /\ (forall status s',
        Main.healthchecker select_1 s
        <> (HTTPException status "Database is not configured correctly",
            s')).
Proof.
  unfold Main.healthchecker, Main.try_except_Exception, bind, lift,
    raise_http, ret.
  destruct select_1 as [[row|]| |]; cbn.
  - split; [reflexivity|]. split; [|discriminate].
    intros H. exfalso. now apply (H row).
  - split; [discriminate|]. split; [reflexivity|]. discriminate.
  - split; [discriminate|]. split; [reflexivity|]. discriminate.
  - split; [discriminate|]. split; [reflexivity|]. discriminate.
Qed.

End HealthCheck.

(** ** The birthday filter, exactly and within bounds *)
Section BirthdayMore.

Import Calendar Birthday CalendarCases CalendarBounds.
Local Open Scope Z_scope.

Lemma bounds_check_holds : bounds_check = true.
Proof. vm_compute. reflexivity. Qed.

Lemma bounds_check_at (lb : bool) (m d : Z) (lt : bool) (mt dt : Z) :
  valid_date (mkdate (representative lb) m d) = true ->
  valid_date (mkdate (representative lt) mt dt) = true ->
  bounds_holds (lb, (m, d)) (birth_entry (lb, (m, d))) (lt, (mt, dt))
               (upcoming_entry 6 (lt, (mt, dt)))
               (upcoming_entry 8 (lt, (mt, dt))) = true.
Proof.
  intros Hb Ht. pose proof bounds_check_holds as H.
  unfold bounds_check in H. cbv zeta in H. rewrite forallb_forall in H.
  specialize (H _ (calendar_cases_complete lt mt dt Ht)).
  rewrite forallb_forall in H.
  apply (H ((lb, (m, d)), birth_entry (lb, (m, d)))).
  apply (in_map (fun c => (c, birth_entry c))).
  now apply calendar_cases_complete.
Qed.

Lemma upcoming_days_any_year (n : nat) (y m d : Z) :
  (n <= 30)%nat ->
  upcoming_days (mkdate y m d) n
  = upcoming_days (mkdate (representative (isleap y)) m d) n.
Proof.
  intros Hn. unfold upcoming_days. apply map_ext_in. intros k Hk.
  apply in_seq in Hk. unfold date_plus_days, date_minus_days.
  destruct (Z.leb_spec 0 (- Z.of_nat k)); [lia|].
  replace (Z.to_nat (- - Z.of_nat k)) with k by lia.
  destruct (iter_next_day_related k (y - representative (isleap y))
              (mkdate y m d) (mkdate (representative (isleap y)) m d))
    as (Hy & Hm & Hd).
  - lia.
  - cbn. lia.
  - unfold forth_related. cbn [year month day].
    rewrite representative_leap. auto.
  - unfold md. now rewrite Hm, Hd.
Qed.

Lemma bounds_holds_true (lb lt : bool) (bmd tmd lo : Z * Z) (back : Z)
  (up6 up8 : list (Z * Z)) :
  bounds_holds (lb, bmd) (back, lo) (lt, tmd) up6 up8 = true ->
  (has_md bmd up6 = true -> in_window lo bmd tmd = true)
  /\ (in_window lo bmd tmd = true ->
      has_md bmd up8 = true \/ is_feb29 bmd = true).
Proof.
  unfold bounds_holds. cbn [fst snd]. intros H.
  apply andb_true_iff in H. destruct H as [H1 H2]. split.
  - intros Hup. now rewrite Hup in H1.
  - intros Hw. rewrite Hw in H2. cbn in H2. now apply orb_true_iff.
Qed.

(** For a valid birth date that is not after a valid today, the filter
    with its look-ahead of 7 holds exactly when today's month and day lie
    in the week that starts at the month and day of the birth date minus
    7 days and ends just before the birthday's month and day, a week that
    runs over the turn of the year for a birthday in early January. *)
Theorem birthday_filter_window (today bd : date) :
  valid_date today = true -> valid_date bd = true ->
  date_leb bd today = true ->
  RepoContacts.has_birthday_next_days today bd 7
  = in_window (md (date_minus_days bd 7)) (md bd) (md today).
Proof.
  intros Ht Hb Hle. unfold date_leb in Hle. apply negb_true_iff in Hle.
  now apply has_birthday_window.
Qed.

(** For a valid birth date that is not after a valid today, however the
    leap years fall, the filter is never off by more than a day: a contact
    whose birthday's month and day come up in the next 6 days always
    passes, and a contact that passes has the birthday's month and day
    coming up in the next 8 days, unless the birthday is 29 February.  (A
    birth date after today is outside this statement.) *)
Theorem birthday_filter_bounds (today bd : date) :
  valid_date today = true -> valid_date bd = true ->
  date_leb bd today = true ->
  (anniversary_within today bd 6 = true ->
   RepoContacts.has_birthday_next_days today bd 7 = true)
  /\ (RepoContacts.has_birthday_next_days today bd 7 = true ->
      anniversary_within today bd 8 = true
      \/ (month bd = 2 /\ day bd = 29)).
Proof.
  intros Ht Hb Hle. unfold date_leb in Hle. apply negb_true_iff in Hle.
  rewrite (has_birthday_window today bd Ht Hb Hle).
  destruct bd as [y m d], today as [yt mt dt].
  pose proof (bounds_check_at (isleap y) m d (isleap yt) mt dt
                (valid_date_representative y m d Hb)
                (valid_date_representative yt mt dt Ht)) as H.
  unfold upcoming_entry in H. cbn [fst snd] in H.
  rewrite <- !(upcoming_days_any_year _ yt mt dt) in H by lia.
  unfold anniversary_within.
  rewrite (minus_7_representative y m d), md_shift_year.
  revert H. unfold birth_entry. cbn [fst snd].
  generalize (date_minus_days (mkdate (representative (isleap y)) m d) 7).
  generalize (upcoming_days (mkdate yt mt dt) 6).
  generalize (upcoming_days (mkdate yt mt dt) 8).
  intros up8 up6 q H. apply bounds_holds_true in H.
  destruct H as [H6 H8]. unfold md. cbn [year month day].
  split; [exact H6|].
  intros Hw. destruct (H8 Hw) as [Hup|Hfeb]; [now left|right].
  unfold is_feb29 in Hfeb. cbn [fst snd] in Hfeb.
  apply andb_true_iff in Hfeb. now rewrite !Z.eqb_eq in Hfeb.
Qed.

End BirthdayMore.

(** ** The further properties on sample data *)
Section MoreInstances.

Import Calendar Birthday.
Local Open Scope string_scope.
Local Open Scope list_scope.
Local Open Scope Z_scope.

(** Alice lists her contacts named Ann; a negative limit is refused. *)
Lemma read_all_contacts_page_witness :
  RepoContacts.read_all_contacts (mkdate 2023 6 10) 10 0 (Some "Ann") None
    (Some "") false 1 Sample.db
  = (Return [Sample.ann], Sample.db)
  /\ (List.length [Sample.ann] <= Z.to_nat 10)%nat
  /\ Contact.name Sample.ann = "Ann"
  /\ RepoContacts.read_all_contacts (mkdate 2023 6 10) (-1) 0 (Some "Ann")
       None (Some "") false 1 Sample.db
     = (Uncaught DBAPIError, Sample.db).
Proof.
  split; [reflexivity|].
  destruct (read_all_contacts_page (mkdate 2023 6 10) 10 0 (Some "Ann")
              None (Some "") false 1 Sample.db) as [Hpage _].
  destruct (Hpage [Sample.ann] Sample.db eq_refl) as (_ & Hlen & Hrows).
  split; [exact Hlen|]. split.
  - apply (proj1 (proj2 (proj2 (Hrows Sample.ann (or_introl eq_refl))))
             "Ann" eq_refl).
    discriminate.
  - apply (proj2 (read_all_contacts_page (mkdate 2023 6 10) (-1) 0
                    (Some "Ann") None (Some "") false 1 Sample.db)).
    left. lia.
Defined.

(** User 2 lists everything with an empty name filter: ben, and only
    ben. *)
Lemma read_all_contacts_exact_witness :
  exists rows,
    RepoContacts.read_all_contacts (mkdate 2023 6 10) 10 0 (Some "") None
      None false 2 Sample.db = (Return rows, Sample.db)
    /\ In Sample.ben rows /\ ~ In Sample.ann rows.
Proof.
  destruct (read_all_contacts_exact (mkdate 2023 6 10) 10 (Some "") None
              None 2 Sample.db) as (rows & Hread & Hiff).
  - cbn. lia.
  - exists rows. split; [exact Hread|]. split.
    + apply Hiff. cbn. tauto.
    + intros Hin. apply Hiff in Hin. cbn in Hin.
      destruct Hin as (_ & Hown & _). discriminate.
Defined.

(** Alice reads and deletes ann. *)
Lemma contact_results_owned_witness :
  Contact.user_id Sample.ann = 1
  /\ users (snd (RepoContacts.delete_contact 1 1 Sample.db))
     = users Sample.db.
Proof.
  destruct (contact_results_owned 1 1 Sample.db) as [Hread Hdel]. split.
  - apply (Hread Sample.ann Sample.db eq_refl).
  - apply (Hdel Sample.ann
             (snd (RepoContacts.delete_contact 1 1 Sample.db)) eq_refl).
Defined.

Lemma sample_ids_unique : NoDup (map Contact.id (contacts Sample.db)).
Proof. cbn. repeat constructor; cbn; intuition discriminate. Defined.

Lemma sample_keyed : contacts_keyed Sample.db.
Proof.
  split; [exact sample_ids_unique|].
  cbn. intros c [<-|[<-|[]]]; cbn; lia.
Defined.

(** Alice deletes ann: ben is all that is left. *)
Lemma delete_contact_removes_witness :
  exists s1,
    RepoContacts.delete_contact 1 1 Sample.db = (Return (Some Sample.ann), s1)
    /\ (forall r, In r (contacts s1)
                  <-> In r (contacts Sample.db) /\ r <> Sample.ann)
    /\ RepoContacts.read_contact 1 1 s1 = (Return None, s1)
    /\ RepoContacts.delete_contact 1 1 s1 = (Return None, s1).
Proof.
  apply (delete_contact_removes Sample.db Sample.ann sample_ids_unique).
  cbn. auto.
Defined.

(** Alice renames ann. *)
Lemma update_contact_in_place_witness :
  exists obj s1,
    RepoContacts.update_contact (mkContactResponse 1 Sample.new_fields) 1 1
      Sample.db = (Return (Some obj), s1)
    /\ Contact.name (row obj) = "Anna"
    /\ RepoContacts.read_contact 1 1 s1 = (Return (Some (row obj)), s1).
Proof.
  destruct (update_contact_in_place Sample.db Sample.ann
              (mkContactResponse 1 Sample.new_fields) sample_ids_unique)
    as (obj & s1 & Hupd & _ & _ & Hname & _ & _ & Hread & _).
  - cbn. auto.
  - exists obj, s1. auto.
Defined.

(** The sample table stays keyed under an add, an update and a delete. *)
Lemma contacts_keyed_preserved_witness :
  contacts_keyed (snd (RepoContacts.add_contact Sample.new_fields 1
                         Sample.db))
  /\ contacts_keyed
       (snd (RepoContacts.update_contact
               (mkContactResponse 1 Sample.new_fields) 1 1 Sample.db))
  /\ contacts_keyed (snd (RepoContacts.delete_contact 1 1 Sample.db)).
Proof.
  apply (contacts_keyed_preserved Sample.db Sample.new_fields
           (mkContactResponse 1 Sample.new_fields) 1 1 sample_keyed).
Defined.

(** Alice and user 2 each add a contact. *)
Lemma add_contact_twice_witness :
  exists c1 s1 c2 s2,
    RepoContacts.add_contact Sample.new_fields 1 Sample.db = (Return c1, s1)
    /\ RepoContacts.add_contact Sample.new_fields 2 s1 = (Return c2, s2)
    /\ Contact.id c2 = Contact.id c1 + 1
    /\ RepoContacts.read_contact (Contact.id c1) 1 s2
       = (Return (Some c1), s2).
Proof.
  destruct (add_contact_twice Sample.new_fields Sample.new_fields 1 2
              Sample.db sample_keyed)
    as (c1 & s1 & c2 & s2 & H1 & H2 & Hid & Hr1 & _).
  exists c1, s1, c2, s2. auto.
Defined.

Lemma sample_emails_unique : emails_unique Sample.db.
Proof.
  unfold emails_unique. cbn. repeat constructor; cbn; intuition discriminate.
Defined.

(** Emails stay unique when carol signs up. *)
Lemma emails_unique_invariant_witness :
  emails_unique
    (RouteAuth.serve Clocked.services
       (RouteAuth.Signup "http://host/" Clocked.carol) Sample.db).
Proof.
  apply (proj1 (emails_unique_invariant Clocked.services
                  (RouteAuth.Signup "http://host/" Clocked.carol) Sample.db
                  sample_emails_unique)).
Defined.

(** Carol signs up and tries to log in at once. *)
Lemma signup_then_login_unconfirmed_witness :
  exists u s1,
    RouteAuth.signup Clocked.services "http://host/" Clocked.carol Sample.db
    = (Return u, s1)
    /\ User.hash u = "hashed:pw"
    /\ RouteAuth.login Clocked.services 5
         (mkLoginForm "carol@example.com" "pw") s1
       = (HTTPException 401 "Email not confirmed", s1).
Proof.
  destruct (signup_then_login_unconfirmed Clocked.services "http://host/"
              Clocked.carol 5 "pw" Sample.db eq_refl)
    as (u & s1 & Hs & _ & Hh & _ & _ & _ & _ & _ & Hl).
  exists u, s1. auto.
Defined.

(** Carol signs up, confirms and logs in. *)
Lemma signup_confirm_login_witness :
  exists u s1 s2 s3 tokens,
    RouteAuth.signup Clocked.services "http://host/" Clocked.carol Sample.db
    = (Return u, s1)
    /\ RouteAuth.confirmed_email Clocked.services 1
         "confirm:carol@example.com" s1
       = (Return "Email confirmed", s2)
    /\ RouteAuth.login Clocked.services 2
         (mkLoginForm "carol@example.com" "pw") s2
       = (Return tokens, s3).
Proof.
  destruct (signup_confirm_login Clocked.services "http://host/"
              "confirm:carol@example.com" Clocked.carol 1 2 Sample.db
              eq_refl eq_refl eq_refl)
    as (u & s1 & s2 & s3 & tokens & u3 & H1 & H2 & H3 & _).
  exists u, s1, s2, s3, tokens. auto.
Defined.

(** Alice logs in at time 1, refreshes at time 2, and the token of time 1
    is then refused; her row carries the token of time 1, then that of
    time 2, then none. *)
Lemma login_refresh_rotation_witness :
  let alice_with := fun token =>
    User.mk 1 "alice" "alice@example.com" "hashed:secret" None token true in
  exists s1 s2 s3,
    RouteAuth.login Clocked.services 1
      (mkLoginForm "alice@example.com" "secret") Sample.db
    = (Return (mkTokens "access:alice@example.com" "r1:alice@example.com"
                        "bearer"), s1)
    /\ RepoUsers.get_user_by_email "alice@example.com" s1
       = (Return (Some (alice_with (Some "r1:alice@example.com"))), s1)
    /\ RouteAuth.refresh_token Clocked.services 2 "r1:alice@example.com" s1
       = (Return (mkTokens "access:alice@example.com"
                           "r2:alice@example.com" "bearer"), s2)
    /\ RepoUsers.get_user_by_email "alice@example.com" s2
       = (Return (Some (alice_with (Some "r2:alice@example.com"))), s2)
    /\ RouteAuth.refresh_token Clocked.services 3 "r1:alice@example.com" s2
       = (HTTPException 401 "Invalid refresh token", s3)
    /\ RepoUsers.get_user_by_email "alice@example.com" s3
       = (Return (Some (alice_with None)), s3)
    /\ RouteAuth.refresh_token Clocked.services 4 "r2:alice@example.com" s3
       = (HTTPException 401 "Invalid refresh token", s3).
Proof.
  intros alice_with.
  destruct (login_refresh_rotation Clocked.services 1 2 3 4
              (mkLoginForm "alice@example.com" "secret") Sample.alice
              Sample.db eq_refl eq_refl eq_refl eq_refl eq_refl eq_refl
              ltac:(discriminate))
    as (s1 & s2 & s3 & u1 & u2 & u3 & H1 & G1 & _ & E1 & H2 & G2 & _ & E2
        & H3 & G3 & _ & E3 & H4).
  subst u1 u2 u3.
  exists s1, s2, s3.
  split; [exact H1|]. split; [exact G1|]. split; [exact H2|].
  split; [exact G2|]. split; [exact H3|]. split; [exact G3|exact H4].
Defined.

(** A malformed confirmation token, and one for an unknown email. *)
Lemma confirmed_email_errors_witness :
  RouteAuth.confirmed_email Clocked.services 0 "garbage" Sample.db
  = (HTTPException 422 "Invalid token for email verification", Sample.db)
  /\ RouteAuth.confirmed_email Clocked.services 0
       "confirm:ghost@example.com" Sample.db
     = (HTTPException 400 "Verification error", Sample.db).
Proof.
  split.
  - apply (proj1 (confirmed_email_errors Clocked.services 0 "garbage"
                    Sample.db)).
    reflexivity.
  - apply (proj2 (confirmed_email_errors Clocked.services 0
                    "confirm:ghost@example.com" Sample.db)
             "ghost@example.com"); reflexivity.
Defined.

(** Bob gets an avatar and keeps the rest of his row; nobody@example.com
    has no row. *)
Lemma update_avatar_url_outcomes_witness :
  RepoUsers.update_avatar_url "bob@example.com" (Some "http://img/b")
    Sample.db
  = (Return (User.mk 2 "bob" "bob@example.com" "hashed:hunter2"
               (Some "http://img/b") None false),
     mkstate [Sample.alice;
              User.mk 2 "bob" "bob@example.com" "hashed:hunter2"
                (Some "http://img/b") None false]
             [Sample.ann; Sample.ben] 3 3 [])
  /\ RepoUsers.update_avatar_url "nobody@example.com" (Some "http://img/n")
       Sample.db
     = (Uncaught AttributeError, Sample.db).
Proof.
  split.
  - destruct (proj1 (update_avatar_url_outcomes "bob@example.com"
                       (Some "http://img/b") Sample.db) Sample.bob eq_refl)
      as (s1 & u1 & H & Ha & Hi & Hn & He & Hh & Ht & Hc & _ & Husers & _
          & Hcontacts & Hnu & Hnc & Htasks).
    rewrite H. f_equal.
    + f_equal. destruct u1 as [i n e h a t c].
      cbn in Ha, Hi, Hn, He, Hh, Ht, Hc. subst i n e h a t c. reflexivity.
    + destruct s1 as [us cs nu nc ts].
      cbn in Husers, Hcontacts, Hnu, Hnc, Htasks.
      subst us cs nu nc ts. reflexivity.
  - apply (proj2 (update_avatar_url_outcomes "nobody@example.com"
                    (Some "http://img/n") Sample.db)).
    reflexivity.
Defined.

(** The probe gives a row; the probe gives no row. *)
Lemma healthchecker_outcomes_witness :
  Main.healthchecker (Return (Some 1)) Sample.db
  = (Return "Welcome to FastAPI!", Sample.db)
  /\ Main.healthchecker (Return None) Sample.db
     = (HTTPException 500 "Error connecting to the database", Sample.db).
Proof.
  split.
  - apply (proj1 (healthchecker_outcomes (Return (Some 1)) Sample.db) 1).
    reflexivity.
  - apply (proj1 (proj2 (healthchecker_outcomes (Return None) Sample.db))).
    discriminate.
Defined.

(** Ben, born on 3 January 1985, seen from 28 December 2023: the week
    before his birthday starts on 27 December. *)
Lemma birthday_filter_window_witness :
  date_minus_days (Contact.birth_date Sample.ben) 7 = mkdate 1984 12 27
  /\ RepoContacts.has_birthday_next_days (mkdate 2023 12 28)
       (Contact.birth_date Sample.ben) 7
     = in_window (12, 27) (1, 3) (12, 28).
Proof.
  split; [reflexivity|].
  apply (birthday_filter_window (mkdate 2023 12 28)
           (Contact.birth_date Sample.ben)); reflexivity.
Defined.

(** A birthday on 5 March: seen from 1 March 2023 it is 4 days ahead and
    passes; seen from 26 February 2024, born in a common year, it passes
    and is 8 days ahead. *)
Lemma birthday_filter_bounds_witness :
  (anniversary_within (mkdate 2023 3 1) (mkdate 2000 3 5) 6 = true
   /\ RepoContacts.has_birthday_next_days (mkdate 2023 3 1)
        (mkdate 2000 3 5) 7 = true)
  /\ (RepoContacts.has_birthday_next_days (mkdate 2024 2 26)
        (mkdate 2001 3 5) 7 = true
      /\ (anniversary_within (mkdate 2024 2 26) (mkdate 2001 3 5) 8 = true
          \/ (month (mkdate 2001 3 5) = 2 /\ day (mkdate 2001 3 5) = 29))).
Proof.
  split.
  - split; [reflexivity|].
    apply (proj1 (birthday_filter_bounds (mkdate 2023 3 1) (mkdate 2000 3 5)
                    eq_refl eq_refl eq_refl)).
    reflexivity.
  - split; [reflexivity|].
    apply (proj2 (birthday_filter_bounds (mkdate 2024 2 26)
                    (mkdate 2001 3 5) eq_refl eq_refl eq_refl)).
    reflexivity.
Defined.

End MoreInstances.

(** ** Contact routes: isolation between users *)
Section ContactIsolation.

Local Open Scope string_scope.
Local Open Scope list_scope.
Local Open Scope Z_scope.

Lemma bind_ret_r {S A : Type} (m : M S A) (s : S) :
  bind m (fun x => ret x) s = m s.
Proof. unfold bind, ret. now destruct (m s) as [[a| |] s']. Qed.

Lemma update_contact_cases (body : ContactValidationSchemaResponse)
  (contact_id user_id : Z) (s : state) :
  RepoContacts.update_contact body contact_id user_id s
  = match RepoContacts.select_contact contact_id user_id s with
    | [] => (Return None, s)
    | [c] =>
        let b := resp_fields body in
        let c' :=
          Contact.mk (Contact.id c) (body_name b) (Contact.last_name c)
                     (body_contact_email b) (Contact.phone_number c)
                     (Contact.birth_date c) (body_rest b)
                     (Contact.user_id c) in
        let obj :=
          mkinstance c'
            [("birthDate", VDate (body_birth_date b));
             ("phoneNumber", VStr (body_phone_number b));
             ("lastName", VStr (body_last_name b))] in
        let s' := RepoContacts.flush_contact obj s in
        (Return (Some (RepoContacts.refresh_contact obj s')), s')
    | _ :: _ :: _ => (Uncaught MultipleResultsFound, s)
    end.
Proof.
  unfold RepoContacts.update_contact. unfold bind at 1.
  rewrite read_contact_state.
  destruct (RepoContacts.select_contact contact_id user_id s)
    as [|c [|c1 rows]]; reflexivity.
Qed.

Lemma delete_contact_cases (contact_id user_id : Z) (s : state) :
  RepoContacts.delete_contact contact_id user_id s
  = match RepoContacts.select_contact contact_id user_id s with
    | [] => (Return None, s)
    | [c] =>
        (Return (Some c),
         with_contacts s
           (filter (fun r => negb (Contact.id r =? Contact.id c))
                   (contacts s)))
    | _ :: _ :: _ => (Uncaught MultipleResultsFound, s)
    end.
Proof.
  unfold RepoContacts.delete_contact. unfold bind at 1.
  rewrite read_contact_state.
  destruct (RepoContacts.select_contact contact_id user_id s)
    as [|c [|c1 rows]]; reflexivity.
Qed.

Lemma refreshed_row (c' : Contact.t) (attrs0 : list (string * value))
  (s' : state) (cs : list Contact.t) (c : Contact.t) :
  Contact.id c' = Contact.id c ->
  contacts s'
  = map (fun r => if Contact.id r =? Contact.id c then c' else r) cs ->
  row (RepoContacts.refresh_contact (mkinstance c' attrs0) s') = c'.
Proof.
  intros Hid Hcs. unfold RepoContacts.refresh_contact. cbn [row].
  rewrite Hcs, Hid, (filter_by_id_replace cs c c' Hid).
  destruct (filter (fun r => Contact.id r =? Contact.id c) cs); reflexivity.
Qed.

(** Whatever request of the contact router an authenticated user makes,
    every contact handed back is owned by that user; and, contact ids
    being unique, every contact of another owner is still in the table
    afterwards, as it was. *)
Theorem contact_routes_isolated (r : ContactRouter.ContactRequest)
  (current_user : User.t) (s : state) :
  (forall c, In c (fst (ContactRouter.serve r current_user s)) ->
             Contact.user_id c = User.id current_user)
  /\ (NoDup (map Contact.id (contacts s)) ->
      forall c, In c (contacts s) ->
                Contact.user_id c <> User.id current_user ->
                In c (contacts (snd (ContactRouter.serve r current_user s)))).
Proof.
  destruct r as [today limit offset name last_name email find_BD
                | contact_id | body | body contact_id | contact_id];
    unfold ContactRouter.serve, RouteContacts.read_all_contacts,
      RouteContacts.read_contact, RouteContacts.add_contact,
      RouteContacts.update_contact, RouteContacts.delete_contact;
    rewrite ?bind_ret_r.
  - destruct (RepoContacts.read_all_contacts today limit offset name
                last_name email find_BD (User.id current_user) s)
      as [o s'] eqn:Hread.
    assert (Hs : s' = s).
    { unfold RepoContacts.read_all_contacts, bind, get, raise, ret in Hread.
      destruct ((limit <? 0) || (offset <? 0)); now inversion Hread. }
    subst s'. cbn [fst snd]. split; [|auto].
    destruct o as [rows| |]; cbn; try tauto.
    apply read_all_contacts_sound in Hread. destruct Hread as [_ Hrows].
    intros c Hin. destruct (Hrows c Hin) as [_ Hw].
    unfold RepoContacts.where_clause in Hw.
    rewrite !andb_true_iff in Hw. apply Z.eqb_eq. tauto.
  - rewrite read_contact_state. cbn [fst snd]. split; [|auto].
    destruct (RepoContacts.select_contact contact_id (User.id current_user)
                s) as [|c0 [|c1 rows]] eqn:Hsel; cbn; try tauto.
    intros c [<-|[]].
    assert (Hin : In c0 (RepoContacts.select_contact contact_id
                           (User.id current_user) s))
      by (rewrite Hsel; now left).
    apply select_contact_in in Hin. tauto.
  - cbn. split.
    + intros c [<-|[]]. reflexivity.
    + intros _ c Hin _. apply in_app_iff. now left.
  - rewrite update_contact_cases.
    destruct (RepoContacts.select_contact contact_id (User.id current_user)
                s) as [|c0 [|c1 rows]] eqn:Hsel; cbv zeta; cbn [fst snd];
      try (split; [cbn; tauto|auto]).
    assert (Hin : In c0 (RepoContacts.select_contact contact_id
                           (User.id current_user) s))
      by (rewrite Hsel; now left).
    apply select_contact_in in Hin. destruct Hin as (Hc0 & Hid0 & Hown0).
    split.
    + intros c [<-|[]].
      erewrite (refreshed_row _ _ _ (contacts s) c0);
        [exact Hown0|reflexivity|reflexivity].
    + intros Hnd c Hc Hown. cbn.
      apply in_map_iff. exists c. split; [|exact Hc].
      destruct (Z.eqb_spec (Contact.id c) (Contact.id c0)) as [E|E];
        [|reflexivity].
      exfalso. apply Hown.
      rewrite (same_key_same_row (contacts s) c c0 Hnd Hc Hc0 E).
      exact Hown0.
  - unfold bind. rewrite delete_contact_cases.
    destruct (RepoContacts.select_contact contact_id (User.id current_user)
                s) as [|c0 [|c1 rows]] eqn:Hsel; cbn [fst snd ret];
      try (split; [cbn; tauto|auto]).
    assert (Hin : In c0 (RepoContacts.select_contact contact_id
                           (User.id current_user) s))
      by (rewrite Hsel; now left).
    apply select_contact_in in Hin. destruct Hin as (Hc0 & Hid0 & Hown0).
    intros Hnd c Hc Hown. cbn. apply filter_In. split; [exact Hc|].
    apply negb_true_iff, Z.eqb_neq. intros E. apply Hown.
    rewrite (same_key_same_row (contacts s) c c0 Hnd Hc Hc0 E).
    exact Hown0.
Qed.

End ContactIsolation.

Section IsolationInstance.

Local Open Scope string_scope.
Local Open Scope list_scope.
Local Open Scope Z_scope.

(** Alice updates and deletes: ben, who belongs to user 2, stays. *)
Lemma contact_routes_isolated_witness :
  In Sample.ben
     (contacts (snd (ContactRouter.serve (ContactRouter.Delete 2)
                       Sample.alice Sample.db)))
  /\ In Sample.ben
        (contacts (snd (ContactRouter.serve
                          (ContactRouter.Update
                             (mkContactResponse 1 Sample.new_fields) 1)
                          Sample.alice Sample.db)))
  /\ Contact.user_id Sample.ann = User.id Sample.alice.
Proof.
  split; [|split].
  - apply (proj2 (contact_routes_isolated (ContactRouter.Delete 2)
                    Sample.alice Sample.db) sample_ids_unique).
    + cbn. auto.
    + cbn. discriminate.
  - apply (proj2 (contact_routes_isolated
                    (ContactRouter.Update
                       (mkContactResponse 1 Sample.new_fields) 1)
                    Sample.alice Sample.db) sample_ids_unique).
    + cbn. auto.
    + cbn. discriminate.
  - apply (proj1 (contact_routes_isolated (ContactRouter.Read 1)
                    Sample.alice Sample.db)).
    cbn. auto.
Defined.

End IsolationInstance.
